(** * Visible -> Affinity metric sync: a shallow embedding and its properties

    The development follows the four source files:
    - [utils.py]    : [normalize_domain];
    - [visible.py]  : the page-counter collections, [get_latest_data_point],
                      [fetch_visible_metric_data];
    - [affinity.py] : the link-style collection [get_affinity_list_entries]
                      and [update_affinity_field];
    - [main.py]     : [sync_runway_data].

    Conventions of the embedding.
    - A Python [str] is a [string]; each [ascii] stands for one code point
      below 256, and the character classes ([str.lower], [str.isspace]) are
      Python's on that range.
    - A Python [dict] used as a map is a [gmap]; a [set] is a [gset].
    - A Python [float] is a binary64 [spec_float].
    - Library calls that live outside the repository ([urllib.parse.urlparse],
      the string parser behind [float(str)], the remote HTTP servers) are
      section variables.
    - HTTP traffic runs in a state-and-exception monad whose state holds the
      server and the chronological log of calls; [while] loops take fuel.
    - A response body is decoded JSON, read at the types the code reads it
      at: a key read with [.get] may be absent, a key that is indexed is
      there. Only the value of a data point, which the code inspects and
      coerces, is kept as a JSON value of any kind.
    - [print] is not modelled; the values a run reports are returned. *)

From stdpp Require Import gmap strings list sorting.
From Stdlib Require Import Ascii String ZArith NArith Lia Floats.SpecFloat.

Open Scope string_scope.
#[local] Set Warnings "-clear-no-such-hyp".

(* ===================================================================== *)
(** * Python strings *)
(* ===================================================================== *)

Module PyStr.

(** [str.isspace] on one code point below 256: U+0009..U+000D,
    U+001C..U+0020, U+0085 and U+00A0. *)
Definition is_space (c : ascii) : bool :=
  let n := N_of_ascii c in
  (((9 <=? n) && (n <=? 13)) || ((28 <=? n) && (n <=? 32))
   || (n =? 133) || (n =? 160))%N.

(** [str.lower] on one code point below 256: A..Z, and the Latin-1 capitals
    U+00C0..U+00DE except the multiplication sign U+00D7. *)
Definition lower_char (c : ascii) : ascii :=
  let n := N_of_ascii c in
  if (((65 <=? n) && (n <=? 90))
      || ((192 <=? n) && (n <=? 222) && negb (n =? 215)))%N
  then ascii_of_N (n + 32) else c.

(** [s.lower()] *)
Fixpoint lower (s : string) : string :=
  match s with
  | "" => ""
  | String c s' => String (lower_char c) (lower s')
  end.

(** [old in s] *)
Fixpoint contains (old s : string) : bool :=
  String.prefix old s ||
  match s with
  | "" => false
  | String _ s' => contains old s'
  end.

(** [s.replace(old, "")] for a non-empty [old]: the occurrences of [old] are
    removed from left to right, without overlap. [skip] counts the characters
    of the occurrence being removed that are still to be dropped. *)
Fixpoint remove_from (old : string) (skip : nat) (s : string) : string :=
  match s with
  | "" => ""
  | String c s' =>
      match skip with
      | S k => remove_from old k s'
      | O => if String.prefix old s
             then remove_from old (String.length old - 1) s'
             else String c (remove_from old 0 s')
      end
  end.

Definition remove_all (old s : string) : string := remove_from old 0 s.

(** [s.lstrip(...)]: drop the leading characters that satisfy [P]. *)
Fixpoint lstrip (P : ascii -> bool) (s : string) : string :=
  match s with
  | "" => ""
  | String c s' => if P c then lstrip P s' else s
  end.

(** [s.rstrip(...)]: drop ALL the trailing characters that satisfy [P]. *)
Fixpoint rstrip (P : ascii -> bool) (s : string) : string :=
  match s with
  | "" => ""
  | String c s' =>
      match rstrip P s' with
      | "" => if P c then "" else String c ""
      | r => String c r
      end
  end.

(** [s.strip()] *)
Definition strip (s : string) : string := rstrip is_space (lstrip is_space s).

Definition is_slash (c : ascii) : bool := Ascii.eqb c "/".

(** The last character of [s] satisfies [P] ([false] on the empty string). *)
Fixpoint ends_with (P : ascii -> bool) (s : string) : bool :=
  match s with
  | "" => false
  | String c "" => P c
  | String _ s' => ends_with P s'
  end.

(** The first character of [s] satisfies [P] ([false] on the empty string). *)
Definition starts_with (P : ascii -> bool) (s : string) : bool :=
  match s with
  | "" => false
  | String c _ => P c
  end.

(** Every character of [s] satisfies [P]. *)
Fixpoint all_chars (P : ascii -> bool) (s : string) : bool :=
  match s with
  | "" => true
  | String c s' => P c && all_chars P s'
  end.

Definition fixed_by_lower (c : ascii) : bool := Ascii.eqb (lower_char c) c.

End PyStr.

(* ===================================================================== *)
(** * Exceptions and results *)
(* ===================================================================== *)

(** The Python exceptions the modelled code can meet. [HTTPError] (raised by
    [raise_for_status]) and [TransportError] (connection failures and
    timeouts raised by [requests]) are the subclasses of
    [requests.exceptions.RequestException] that occur. *)
Inductive exn : Type :=
| ValueError
| TypeError
| OverflowError
| HTTPError (status : Z)
| TransportError.

Definition is_RequestException (e : exn) : bool :=
  match e with
  | HTTPError _ | TransportError => true
  | _ => false
  end.

(** What running a piece of code gives: a value, a raised exception, or a
    [while] loop that was still running when its fuel ran out. *)
Inductive result (A : Type) : Type :=
| Ok (a : A)
| Raise (e : exn)
| OutOfFuel.
Arguments Ok {A} a.
Arguments Raise {A} e.
Arguments OutOfFuel {A}.

(* ===================================================================== *)
(** * utils.py *)
(* ===================================================================== *)

(** The two components of [urlparse]'s result that the code reads. *)
Record ParseResult : Type := { netloc : string; path : string }.

Section Utils.

(** [urllib.parse.urlparse]; [None] stands for the [ValueError] it raises on
    some malformed URLs. *)
Variable urlparse : string -> option ParseResult.

(** utils.py, lines 3-15. *)
Definition normalize_domain (url : string) : result string :=
  if String.eqb url "" || String.eqb url "N/A" then Ok ""
  else
    let host :=
      if PyStr.contains "://" url then
        match urlparse url with
        | Some parsed =>
            Ok (if String.eqb (netloc parsed) "" then path parsed
                else netloc parsed)
        | None => Raise ValueError
        end
      else Ok url in
    match host with
    | Ok domain =>
        Ok (PyStr.rstrip PyStr.is_slash
              (PyStr.strip (PyStr.remove_all "www." (PyStr.lower domain))))
    | Raise e => Raise e
    | OutOfFuel => OutOfFuel
    end.

End Utils.

(* ===================================================================== *)
(** * A state-and-exception monad *)
(* ===================================================================== *)

(** Code that reads and updates a state [S] and may raise: the state is
    kept when an exception is raised, as Python keeps the objects mutated
    before the [raise]. *)
Definition prog (S A : Type) : Type := S -> result A * S.

Definition ret {S A} (a : A) : prog S A := fun s => (Ok a, s).

Definition raise {S A} (e : exn) : prog S A := fun s => (Raise e, s).

Definition out_of_fuel {S A} : prog S A := fun s => (OutOfFuel, s).

Definition bind {S A B} (m : prog S A) (k : A -> prog S B) : prog S B :=
  fun s =>
    match m s with
    | (Ok a, s') => k a s'
    | (Raise e, s') => (Raise e, s')
    | (OutOfFuel, s') => (OutOfFuel, s')
    end.

Notation "'let!' x := m 'in' k" := (bind m (fun x => k))
  (at level 10, x pattern, m at level 100, k at level 200, only parsing).

Definition get_state {S} : prog S S := fun s => (Ok s, s).

Definition put_state {S} (s : S) : prog S unit := fun _ => (Ok tt, s).

(** A pure computation that may raise, run inside [prog]. *)
Definition lift {S A} (r : result A) : prog S A := fun s => (r, s).

(** [try: m except <the exceptions that satisfy catches>: handler] *)
Definition try_except {S A} (m : prog S A) (catches : exn -> bool)
    (handler : exn -> prog S A) : prog S A :=
  fun s =>
    match m s with
    | (Raise e, s') => if catches e then handler e s' else (Raise e, s')
    | other => other
    end.

(** [for x in xs: acc = body(acc, x)] *)
Fixpoint for_each {S A B} (xs : list A) (body : B -> A -> prog S B) (acc : B)
    : prog S B :=
  match xs with
  | [] => ret acc
  | x :: xs' => let! acc' := body acc x in for_each xs' body acc'
  end.

(* ===================================================================== *)
(** * Payloads *)
(* ===================================================================== *)

Definition float : Type := spec_float.

(** Python's [float(n)] for an [int] n: round to nearest, ties to even;
    [OverflowError] when the rounded value does not fit binary64. *)
Definition float_of_int (n : Z) : result float :=
  match binary_normalize 53 1024 n 0 false with
  | S754_infinity _ => Raise OverflowError
  | f => Ok f
  end.

(** A decoded JSON value, as [r.json()] gives it: [json] decodes a number
    written without fraction or exponent to an [int] of any size, and any
    other number to a [float]. The contents of arrays and objects are never
    read at this type. *)
Inductive JValue : Type :=
| JNull
| JBool (b : bool)
| JInt (n : Z)
| JFloat (f : float)
| JStr (s : string)
| JArray
| JObject.

(** [value in [None, "None"]] *)
Definition is_none_value (v : JValue) : bool :=
  match v with
  | JNull => true
  | JStr s => String.eqb s "None"
  | _ => false
  end.

(** Visible: a portfolio company profile; both keys are read with [.get]. *)
Record Company : Type := {
  profile_name : option string;
  profile_id : option string
}.

(** Visible: a metric; ["id"] is indexed, ["name"] read with [.get]. *)
Record Metric : Type := {
  m_id : string;
  m_name : option string
}.

(** Visible: a data point; an absent ["value"] reads as [None]. *)
Record DataPoint : Type := {
  dp_date : option string;
  dp_value : JValue
}.

(** Visible: a portfolio property; both keys are indexed. *)
Record Property : Type := {
  property_id : string;
  property_name : string
}.

(** Visible: a portfolio property value; both keys are read with [.get]. *)
Record PropertyValue : Type := {
  pv_property_id : option string;
  pv_value : option string
}.

(** Affinity: a list entry. [entity_name] and [entity_domains] are
    [entry.get("entity", {}).get(...)], absent when either key is. *)
Record Entry : Type := {
  entry_id : option string;
  entity_name : option string;
  entity_domains : option (list string)
}.

(** A response body: the decoded JSON object, restricted to the keys the
    code reads; [None] is an absent key. [total_pages] is
    [data.get("meta", {}).get("total_pages")] and [nextUrl] is
    [(payload.get("pagination", {}) or {}).get("nextUrl")]. *)
Record Body : Type := {
  portfolio_company_profiles : option (list Company);
  metrics : option (list Metric);
  data_points : option (list DataPoint);
  portfolio_properties : option (list Property);
  portfolio_property_values : option (list PropertyValue);
  total_pages : option Z;
  data : option (list Entry);
  nextUrl : option string
}.

Record Response : Type := {
  status_code : Z;
  body : Body
}.

(** [r.ok]: false exactly when [raise_for_status] would raise, that is for
    the statuses 400..599. *)
Definition ok (r : Response) : bool :=
  negb ((400 <=? status_code r)%Z && (status_code r <? 600)%Z).

(** What a call of [requests] gives: a response, or an exception of the
    transport (connection error, timeout). *)
Inductive Reply : Type :=
| Responded (r : Response)
| Failed.

(** The HTTP calls the program makes. The constant parts of a call (base
    URL, headers, company id, timeout, page size) are left out. *)
Inductive Request : Type :=
| GetCompanyProfiles (page : Z)
| GetMetrics (page : Z) (profile_filter : option (option string))
| GetDataPoints (metric : string) (page : Z)
| GetPortfolioProperties
| GetPropertyValues (profile : option string)
| GetAffinity (url : string) (limit : option Z)
| PatchAffinity (url : string) (field_id : string) (value : float).

Definition is_patch (q : Request) : bool :=
  match q with
  | PatchAffinity _ _ _ => true
  | _ => false
  end.

Definition is_visible_request (q : Request) : bool :=
  match q with
  | GetAffinity _ _ | PatchAffinity _ _ _ => false
  | _ => true
  end.

(** The state of a run: the remote side, and the calls made so far with
    their replies, oldest first. *)
Record World (Srv : Type) : Type := {
  server : Srv;
  calls : list (Request * Reply)
}.
Arguments server {Srv} w.
Arguments calls {Srv} w.

(* ===================================================================== *)
(** * The program *)
(* ===================================================================== *)

Section Program.

(** The remote side: a state and the reply it gives to each call. *)
Context {Srv : Type}.
Variable serve : Request -> Srv -> Reply * Srv.

(** [urllib.parse.urlparse], as in [normalize_domain]. *)
Variable urlparse : string -> option ParseResult.

(** Python's [float(s)] for a [str] s; [None] stands for its [ValueError]. *)
Variable float_of_string : string -> option float.

(** The module constant [AFFINITY_BASE_URL] of affinity.py. *)
Variable AFFINITY_BASE_URL : string.

Abbreviation IO := (prog (World Srv)).

(** One call of [requests.get] or [requests.patch]: the call and its reply
    are logged; a transport failure is raised. *)
Definition http (q : Request) : IO Response :=
  fun w =>
    let (reply, srv') := serve q (server w) in
    let w' := {| server := srv'; calls := (calls w ++ [(q, reply)])%list |} in
    match reply with
    | Responded r => (Ok r, w')
    | Failed => (Raise TransportError, w')
    end.

(** [r.raise_for_status()] *)
Definition raise_for_status (r : Response) : IO unit :=
  if ok r then ret tt else raise (HTTPError (status_code r)).

(** [float(v)] for a decoded JSON value [v]. *)
Definition py_float (v : JValue) : result float :=
  match v with
  | JFloat f => Ok f
  | JInt n => float_of_int n
  | JBool b => float_of_int (if b then 1 else 0)
  | JStr s =>
      match float_of_string s with
      | Some f => Ok f
      | None => Raise ValueError
      end
  | JNull | JArray | JObject => Raise TypeError
  end.

(** ** visible.py *)

(** The page-counter loop that [get_visible_portfolio_companies] (lines
    19-46), [get_visible_metrics] (48-74) and [get_visible_company_metrics]
    (82-111) each spell out: they differ in the request made for a page and
    in the key of the body whose list is collected. *)
Fixpoint page_loop {A} (request : Z -> Request) (key : Body -> option (list A))
    (fuel : nat) (page : Z) (acc : list A) : IO (list A) :=
  match fuel with
  | O => out_of_fuel
  | S fuel' =>
      let! r := http (request page) in
      if negb (ok r) then ret acc
      else
        let acc' := (acc ++ default [] (key (body r)))%list in
        if (page >=? default 1 (total_pages (body r)))%Z then ret acc'
        else page_loop request key fuel' (page + 1)%Z acc'
  end.

(** visible.py, lines 19-46. *)
Definition get_visible_portfolio_companies (fuel : nat) : IO (list Company) :=
  page_loop GetCompanyProfiles portfolio_company_profiles fuel 1%Z [].

(** visible.py, lines 48-74. *)
Definition get_visible_metrics (fuel : nat) : IO (list Metric) :=
  page_loop (fun page => GetMetrics page None) metrics fuel 1%Z [].

(** visible.py, lines 82-111. *)
Definition get_visible_company_metrics (fuel : nat)
    (company_profile_id : option string) : IO (list Metric) :=
  page_loop (fun page => GetMetrics page (Some company_profile_id))
    metrics fuel 1%Z [].

(** The pair [(latest_date, latest_value)] of [get_latest_data_point]. *)
Record Latest : Type := {
  latest_date : string;
  latest_value : JValue
}.

(** visible.py, lines 136-141: one turn of [for dp in points]. *)
Definition latest_step (latest : Latest) (dp : DataPoint) : Latest :=
  match dp_date dp with
  | Some date =>
      if negb (is_none_value (dp_value dp))
         && negb (String.eqb date "")
         && String.ltb (latest_date latest) date
      then {| latest_date := date; latest_value := dp_value dp |}
      else latest
  | None => latest
  end.

(** visible.py, lines 120-145. *)
Fixpoint latest_loop (metric : string) (fuel : nat) (page : Z)
    (latest : Latest) : IO Latest :=
  match fuel with
  | O => out_of_fuel
  | S fuel' =>
      let! r := http (GetDataPoints metric page) in
      if negb (ok r) then ret latest
      else
        let points := default [] (data_points (body r)) in
        let latest' := fold_left latest_step points latest in
        if (page >=? default 1 (total_pages (body r)))%Z then ret latest'
        else latest_loop metric fuel' (page + 1)%Z latest'
  end.

(** visible.py, lines 114-147. *)
Definition get_latest_data_point (fuel : nat) (metric : string) : IO Latest :=
  latest_loop metric fuel 1%Z
    {| latest_date := "0000-00-00"; latest_value := JNull |}.

(** visible.py, lines 150-168. *)
Definition get_website_property_id : IO (option string) :=
  let! r := http GetPortfolioProperties in
  if negb (ok r) then ret None
  else
    let properties := default [] (portfolio_properties (body r)) in
    ret (property_id <$>
           List.find (fun p => String.prefix "website"
                                 (PyStr.lower (property_name p)))
                     properties).

(** visible.py, lines 171-187. *)
Definition get_company_website (profile : option string)
    (website_property_id : string) : IO (option string) :=
  let! r := http (GetPropertyValues profile) in
  if negb (ok r) then ret None
  else
    let values := default [] (portfolio_property_values (body r)) in
    ret (v ← List.find (fun v => bool_decide (pv_property_id v
                                              = Some website_property_id))
                       values;
         pv_value v).

(** visible.py, lines 207-237: one turn of [for company in companies]; the
    result is [domain_to_value] after the turn. The [try] covers the
    coercion, the store and a [print]; [except (ValueError, TypeError)]
    leaves the map as it is. (The [print] raises [TypeError] for a company
    without a name; that happens after the store, so the map is the same
    with or without it.) *)
Definition fetch_company (fuel : nat) (metric_name website_property_id : string)
    (domain_to_value : gmap string float) (company : Company)
    : IO (gmap string float) :=
  let! website :=
    get_company_website (profile_id company) website_property_id in
  match website with
  | None => ret domain_to_value
  | Some website =>
      if String.eqb website "" || String.eqb website "N/A"
      then ret domain_to_value
      else
        let! normalized_domain := lift (normalize_domain urlparse website) in
        if String.eqb normalized_domain "" then ret domain_to_value
        else
          let! metrics :=
            get_visible_company_metrics fuel (profile_id company) in
          match List.find
                  (fun m => String.eqb
                     (PyStr.lower (PyStr.strip (default "" (m_name m))))
                     (PyStr.strip (PyStr.lower metric_name)))
                  metrics with
          | None => ret domain_to_value
          | Some metric =>
              let! latest := get_latest_data_point fuel (m_id metric) in
              if negb (is_none_value (latest_value latest)) then
                try_except
                  (let! value := lift (py_float (latest_value latest)) in
                   ret (<[normalized_domain := value]> domain_to_value))
                  (fun e => match e with
                            | ValueError | TypeError => true
                            | _ => false
                            end)
                  (fun _ => ret domain_to_value)
              else ret domain_to_value
          end
  end.

(** visible.py, lines 190-240. *)
Definition fetch_visible_metric_data (fuel : nat) (metric_name : string)
    : IO (gmap string float) :=
  let! companies := get_visible_portfolio_companies fuel in
  let! website_property_id := get_website_property_id in
  match website_property_id with
  | None => ret ∅
  | Some website_property_id =>
      if String.eqb website_property_id "" then ret ∅
      else
        for_each companies
          (fetch_company fuel metric_name website_property_id) ∅
  end.

(** ** affinity.py *)

(** [while url:] of affinity.py, lines 22-36. [url] is [None] once the
    server names no next page. *)
Fixpoint entries_loop (fuel : nat) (url : option string) (params : option Z)
    (all_entries : list Entry) : IO (list Entry) :=
  match fuel with
  | O => out_of_fuel
  | S fuel' =>
      match url with
      | None => ret all_entries
      | Some u =>
          if String.eqb u "" then ret all_entries
          else
            let! r := http (GetAffinity u params) in
            let! _ := raise_for_status r in
            let all_entries' :=
              (all_entries ++ default [] (data (body r)))%list in
            let url' :=
              match nextUrl (body r) with
              | Some next_url =>
                  if String.eqb next_url "" then None
                  else if String.prefix "http" next_url then Some next_url
                  else Some (AFFINITY_BASE_URL ++ next_url)
              | None => None
              end in
            entries_loop fuel' url' None all_entries'
      end
  end.

(** affinity.py, lines 16-38. *)
Definition get_affinity_list_entries (fuel : nat) (list_id : string)
    : IO (list Entry) :=
  entries_loop fuel
    (Some (AFFINITY_BASE_URL ++ "/v2/lists/" ++ list_id ++ "/list-entries"))
    (Some 100%Z) [].

(** [f"{x}"] for an [x] that is a [str] or [None]. *)
Definition fmt (x : option string) : string := default "None" x.

(** affinity.py, lines 66-92. *)
Definition update_affinity_field (list_id : string)
    (list_entry_id : option string) (field_id : string) (value : float)
    : IO bool :=
  let url := AFFINITY_BASE_URL ++ "/v2/lists/" ++ list_id ++ "/list-entries/"
             ++ fmt list_entry_id ++ "/fields" in
  try_except
    (let! r := http (PatchAffinity url field_id value) in
     let! _ := raise_for_status r in
     ret true)
    is_RequestException
    (fun _ => ret false).

(** ** main.py *)

(** One element of [matches] (main.py, lines 143-148). *)
Record Match : Type := {
  company_name : string;
  list_entry_id : option string;
  domain : string;
  metric_value : float
}.

(** The objects the matching step works on (main.py, lines 129-131, and
    [visible_data]). *)
Record Matching : Type := {
  visible_data : gmap string float;
  matches : list Match;
  unmatched_visible : gset string;
  unmatched_affinity : list (string * list string)
}.

(** main.py, lines 139-152: [for domain in domains], giving [matched]. *)
Fixpoint scan_domains (name : string) (id : option string)
    (domains : list string) : prog Matching bool :=
  match domains with
  | [] => ret false
  | d :: rest =>
      let! normalized := lift (normalize_domain urlparse d) in
      let! st := get_state in
      match visible_data st !! normalized with
      | Some value =>
          let! _ := put_state
            {| visible_data := visible_data st;
               matches := (matches st ++
                           [{| company_name := name; list_entry_id := id;
                               domain := normalized;
                               metric_value := value |}])%list;
               unmatched_visible := unmatched_visible st ∖ {[normalized]};
               unmatched_affinity := unmatched_affinity st |} in
          ret true
      | None => scan_domains name id rest
      end
  end.

(** main.py, lines 133-155: one turn of [for entry in affinity_entries]. *)
Definition match_entry (entry : Entry) : prog Matching unit :=
  let name := default "Unknown" (entity_name entry) in
  let domains := default [] (entity_domains entry) in
  let! matched := scan_domains name (entry_id entry) domains in
  if negb matched && negb (bool_decide (domains = [])) then
    let! st := get_state in
    put_state
      {| visible_data := visible_data st;
         matches := matches st;
         unmatched_visible := unmatched_visible st;
         unmatched_affinity :=
           (unmatched_affinity st ++ [(name, domains)])%list |}
  else ret tt.

(** main.py, lines 129-155: the matching step, on the state it starts in. *)
Definition match_companies (affinity_entries : list Entry)
    : prog Matching unit :=
  for_each affinity_entries (fun _ entry => match_entry entry) tt.

Definition start_matching (visible : gmap string float) : Matching :=
  {| visible_data := visible;
     matches := [];
     unmatched_visible := dom visible;
     unmatched_affinity := [] |}.

(** What step 4 reports: the lines of the dry run (company and value), or
    the two counters of the update summary. *)
Inductive Step4 : Type :=
| WouldUpdate (lines : list (string * float))
| Updated (success_count failed_count : nat).

(** What a run that reaches the end reports. *)
Record Report : Type := {
  matching : Matching;
  step4 : Step4
}.

(** main.py, lines 183-199: [for match in matches], giving the counters. *)
Definition update_matches (list_id field_id : string) (ms : list Match)
    : IO (nat * nat) :=
  for_each ms
    (fun '(success_count, failed_count) m =>
       let! success :=
         update_affinity_field list_id (list_entry_id m) field_id
           (metric_value m) in
       if success then ret (S success_count, failed_count)
       else ret (success_count, S failed_count))
    (0, 0).

(** main.py, lines 170-203: step 4. *)
Definition apply_updates (dry_run : bool) (list_id field_id : string)
    (ms : list Match) : IO Step4 :=
  if dry_run then
    ret (WouldUpdate (map (fun m => (company_name m, metric_value m)) ms))
  else
    let! (success_count, failed_count) := update_matches list_id field_id ms in
    ret (Updated success_count failed_count).

(** main.py, lines 108-155: steps 1 to 3. [None] is the early [return] of
    line 112. *)
Definition reconcile (fuel : nat) (list_id metric_name : string)
    : IO (option Matching) :=
  let! visible := fetch_visible_metric_data fuel metric_name in
  if bool_decide (visible = ∅) then ret None
  else
    let! affinity_entries := get_affinity_list_entries fuel list_id in
    match match_companies affinity_entries (start_matching visible) with
    | (Ok _, st) => ret (Some st)
    | (Raise e, _) => raise e
    | (OutOfFuel, _) => out_of_fuel
    end.

(** main.py, lines 96-207. [None] is the early [return] of line 112. *)
Definition sync_runway_data (fuel : nat) (dry_run : bool)
    (list_id metric_name field_id : string) : IO (option Report) :=
  let! reconciled := reconcile fuel list_id metric_name in
  match reconciled with
  | None => ret None
  | Some st =>
      let! s4 := apply_updates dry_run list_id field_id (matches st) in
      ret (Some {| matching := st; step4 := s4 |})
  end.

End Program.

(* ===================================================================== *)
(** * The vocabulary of the statements *)
(* ===================================================================== *)

(** The last three steps of [normalize_domain], after lower-casing. *)
Definition cleaned (host : string) : string :=
  PyStr.rstrip PyStr.is_slash
    (PyStr.strip (PyStr.remove_all "www." (PyStr.lower host))).

(** [respects R m]: whatever [m] does to the state, and however it ends,
    the states before and after are related by [R]. *)
Definition respects {S A} (R : S -> S -> Prop) (m : prog S A) : Prop :=
  forall s, R s (m s).2.

(** [logs P w w']: the log of [w'] is the log of [w] followed by calls that
    all satisfy [P]. *)
Definition logs {Srv} (P : Request -> bool) (w w' : World Srv) : Prop :=
  exists new, calls w' = (calls w ++ new)%list
              /\ Forall (fun c => P c.1 = true) new.

(** What one record can add to [matches]. *)
Definition claimed_by (entry : Entry) (m : Match) : Prop :=
  company_name m = default "Unknown" (entity_name entry)
  /\ list_entry_id m = entry_id entry.

(** The effect of a piece of the matching step that handles the records
    [entries]: it appends [ms] to [matches] and [us] to
    [unmatched_affinity], where each record gives at most one element to
    one of the two lists, in record order; every new match carries a key of
    the source map and its value; the matched keys leave
    [unmatched_visible]; the source map is untouched. *)
Record extends_by (entries : list Entry) (st st' : Matching)
    (ms : list Match) (us : list (string * list string)) : Prop := {
  ext_visible : visible_data st' = visible_data st;
  ext_matches : matches st' = (matches st ++ ms)%list;
  ext_unmatched_affinity :
    unmatched_affinity st' = (unmatched_affinity st ++ us)%list;
  ext_unmatched_visible :
    unmatched_visible st'
    = unmatched_visible st ∖ list_to_set (domain <$> ms);
  ext_values :
    Forall (fun m => visible_data st !! domain m = Some (metric_value m)) ms;
  ext_records :
    exists claimed, claimed `sublist_of` entries /\ Forall2 claimed_by claimed ms;
  ext_count : List.length ms + List.length us <= List.length entries
}.

(** The state once [m] was appended to [matches] (main.py, lines 143-149). *)
Definition with_match (st : Matching) (m : Match) : Matching :=
  {| visible_data := visible_data st;
     matches := (matches st ++ [m])%list;
     unmatched_visible := unmatched_visible st ∖ {[domain m]};
     unmatched_affinity := unmatched_affinity st |}.

(** The state once [u] was appended to [unmatched_affinity] (line 155). *)
Definition with_unmatched (st : Matching) (u : string * list string)
    : Matching :=
  {| visible_data := visible_data st;
     matches := matches st;
     unmatched_visible := unmatched_visible st;
     unmatched_affinity := (unmatched_affinity st ++ [u])%list |}.

(** The responses to the pages [page], [page + 1], ... are all successful
    and each reports more pages than its own number. *)
Fixpoint continues (page : Z) (rs : list Response) : Prop :=
  match rs with
  | [] => True
  | r :: rest =>
      ok r = true
      /\ (page < default 1 (total_pages (body r)))%Z
      /\ continues (page + 1)%Z rest
  end.

(** The responses that the loop reads when they are all successful: up to
    and including the first whose page number reaches the total it
    reports. *)
Fixpoint pages_read (page : Z) (rs : list Response) : list Response :=
  match rs with
  | [] => []
  | r :: rest =>
      if (page >=? default 1 (total_pages (body r)))%Z then [r]
      else r :: pages_read (page + 1)%Z rest
  end.

(** The items of the pages [rs], in page order. *)
Definition items_of {A} (key : Body -> option (list A)) (rs : list Response)
    : list A :=
  List.concat ((fun r => default [] (key (body r))) <$> rs).

(** An update call succeeded: a response came, with a success status. *)
Definition succeeded (reply : Reply) : bool :=
  match reply with
  | Responded r => ok r
  | Failed => false
  end.

Section Vocabulary.

Context {Srv : Type}.
Variable serve : Request -> Srv -> Reply * Srv.
Variable AFFINITY_BASE_URL : string.

Abbreviation IO := (prog (World Srv)).

(** The world after the call [q]. *)
Definition after_call (q : Request) (w : World Srv) : World Srv :=
  {| server := (serve q (server w)).2;
     calls := (calls w ++ [(q, (serve q (server w)).1)])%list |}.

(** The server, from the state it has in [w], answers the requests for the
    pages [page], [page + 1], ... with [replies], in this order. *)
Fixpoint answers (request : Z -> Request) (page : Z) (replies : list Reply)
    (w : World Srv) : Prop :=
  match replies with
  | [] => True
  | reply :: rest =>
      (serve (request page) (server w)).1 = reply
      /\ answers request (page + 1)%Z rest (after_call (request page) w)
  end.

(** The page-counter collections of visible.py, each with the request it
    makes for a page and the key whose list it collects. *)
Inductive page_collection :
  forall {A}, (nat -> IO (list A)) ->
              (Z -> Request) -> (Body -> option (list A)) -> Prop :=
| companies_collection :
    page_collection (get_visible_portfolio_companies serve)
      GetCompanyProfiles portfolio_company_profiles
| metrics_collection :
    page_collection (get_visible_metrics serve)
      (fun page => GetMetrics page None) metrics
| company_metrics_collection id :
    page_collection (fun fuel => get_visible_company_metrics serve fuel id)
      (fun page => GetMetrics page (Some id)) metrics.

(** The update call made for a match. *)
Definition patch_of (list_id field_id : string) (m : Match) : Request :=
  PatchAffinity
    (AFFINITY_BASE_URL ++ "/v2/lists/" ++ list_id ++ "/list-entries/"
     ++ fmt (list_entry_id m) ++ "/fields")
    field_id (metric_value m).

(** The replies to the calls [qs] made in a row from [w], and the world
    after them. *)
Fixpoint replies_to (qs : list Request) (w : World Srv) : list Reply :=
  match qs with
  | [] => []
  | q :: rest => (serve q (server w)).1 :: replies_to rest (after_call q w)
  end.

Fixpoint after_calls (qs : list Request) (w : World Srv) : World Srv :=
  match qs with
  | [] => w
  | q :: rest => after_calls rest (after_call q w)
  end.

End Vocabulary.

(* ===================================================================== *)
(** * The program, continued: the metric names *)
(* ===================================================================== *)

(** The order of [sorted] on [str]: by code points, a proper prefix first. *)
Definition str_le (a b : string) : Prop := String.leb a b = true.

#[global] Instance str_le_dec : RelDecision str_le :=
  fun a b => decide (String.leb a b = true).

(** visible.py, line 79: the names that the comprehension keeps, those of
    the metrics whose ["name"] is there and not empty. *)
Definition named (metrics : list Metric) : list string :=
  omap (fun m => match m_name m with
                 | Some name => if String.eqb name "" then None else Some name
                 | None => None
                 end) metrics.

(** [sorted({...})]: the distinct elements, in ascending order. *)
Definition sorted_set (names : list string) : list string :=
  merge_sort str_le (remove_dups names).

Section MetricNames.

Context {Srv : Type}.
Variable serve : Request -> Srv -> Reply * Srv.

(** visible.py, lines 76-80. *)
Definition get_visible_metric_names (fuel : nat)
    : prog (World Srv) (list string) :=
  let! metrics := get_visible_metrics serve fuel in
  ret (sorted_set (named metrics)).

End MetricNames.

(* ===================================================================== *)
(** * More vocabulary *)
(* ===================================================================== *)

(** The domain [d] normalizes to a string that is no key of [visible]. *)
Definition no_key (urlparse : string -> option ParseResult)
    (visible : gmap string float) (d : string) : Prop :=
  exists n, normalize_domain urlparse d = Ok n /\ visible !! n = None.

(** The domains of a record, as the matching step reads them. *)
Definition domains_of (entry : Entry) : list string :=
  default [] (entity_domains entry).

(** The data point passes the first two tests of visible.py, line 139: its
    value is neither [None] nor "None", and it has a date. *)
Definition usable (dp : DataPoint) : bool :=
  negb (is_none_value (dp_value dp))
  && match dp_date dp with
     | Some date => negb (String.eqb date "")
     | None => false
     end.

(** The date [a] is not after the date [b], in the order of [str]. *)
Definition not_after (a b : string) : Prop := String.ltb b a = false.

(** What [get_latest_data_point] starts from. *)
Definition no_data : Latest :=
  {| latest_date := "0000-00-00"; latest_value := JNull |}.

(** The URL that the link-style loop requests after the response [r]
    (affinity.py, lines 30-36): the link [r] names, resolved against the
    base URL unless it starts with "http"; none when [r] names no link. *)
Definition linked_url (AFFINITY_BASE_URL : string) (r : Response)
    : option string :=
  match nextUrl (body r) with
  | Some next_url =>
      if String.eqb next_url "" then None
      else if String.prefix "http" next_url then Some next_url
      else Some (AFFINITY_BASE_URL ++ next_url)
  | None => None
  end.

(** A request of the link-style loop that carries no [limit] parameter. *)
Definition without_limit (q : Request) : bool :=
  match q with
  | GetAffinity _ None => true
  | _ => false
  end.

(** What is known of a selection [latest] among the data points [points]:
    no usable point is dated after it; and it is the start value, or the
    date and value of a usable point dated after the start date. *)
Definition latest_among (points : list DataPoint) (latest : Latest) : Prop :=
  Forall (fun dp => usable dp = true ->
                    forall date, dp_date dp = Some date ->
                                 not_after date (latest_date latest)) points
  /\ (latest = no_data
      \/ exists dp, dp ∈ points
                    /\ usable dp = true
                    /\ dp_date dp = Some (latest_date latest)
                    /\ dp_value dp = latest_value latest
                    /\ String.ltb "0000-00-00" (latest_date latest) = true).


(** The classification is sound for the records [es] and the source map
    [visible]: a match carries the normal form of a domain of its record,
    which is a key of the map, with the value of the key; a record listed
    as unmatched has a domain, and the normal form of none of its domains
    is a key. *)
Definition sound_for (urlparse : string -> option ParseResult)
    (visible : gmap string float) (es : list Entry) (st : Matching) : Prop :=
  Forall (fun m => visible !! domain m = Some (metric_value m)
                   /\ exists e d, e ∈ es /\ claimed_by e m
                                  /\ d ∈ domains_of e
                                  /\ normalize_domain urlparse d = Ok (domain m))
         (matches st)
  /\ Forall (fun u => exists e,
                 e ∈ es
                 /\ u = (default "Unknown" (entity_name e), domains_of e)
                 /\ domains_of e <> []
                 /\ Forall (no_key urlparse visible) (domains_of e))
            (unmatched_affinity st).

(** [n] is the normal form of the first of the [domains], in listed order,
    that normalizes to a key of [visible], and [v] is the value of that
    key: the domains before it all normalize to strings that are no keys. *)
Definition first_key (urlparse : string -> option ParseResult)
    (visible : gmap string float) (domains : list string)
    (n : string) (v : float) : Prop :=
  exists before d after,
    domains = (before ++ d :: after)%list
    /\ Forall (no_key urlparse visible) before
    /\ normalize_domain urlparse d = Ok n
    /\ visible !! n = Some v.

(** The join as the code performs it, record by record and in record
    order, against the whole source map: a record without domains gives
    nothing; a record with a first key gives one match, on that key; a
    record with domains and no key among them is listed as unmatched. The
    keys that earlier records matched play no part. *)
Inductive classified (urlparse : string -> option ParseResult)
    (visible : gmap string float)
    : list Entry -> list Match -> list (string * list string) -> Prop :=
| classified_nil : classified urlparse visible [] [] []
| classified_no_domain entry entries ms us :
    domains_of entry = [] ->
    classified urlparse visible entries ms us ->
    classified urlparse visible (entry :: entries) ms us
| classified_match entry entries ms us n v :
    first_key urlparse visible (domains_of entry) n v ->
    classified urlparse visible entries ms us ->
    classified urlparse visible (entry :: entries)
      ({| company_name := default "Unknown" (entity_name entry);
          list_entry_id := entry_id entry;
          domain := n; metric_value := v |} :: ms) us
| classified_unmatched entry entries ms us :
    domains_of entry <> [] ->
    Forall (no_key urlparse visible) (domains_of entry) ->
    classified urlparse visible entries ms us ->
    classified urlparse visible (entry :: entries) ms
      ((default "Unknown" (entity_name entry), domains_of entry) :: us).

Section MoreVocabulary.

Context {Srv : Type}.
Variable serve : Request -> Srv -> Reply * Srv.
Variable AFFINITY_BASE_URL : string.

(** The server, from the state it has in [w], answers the request for
    [url] and then the requests for the links that follow with the
    successful responses [rs], the last of which names no further link. *)
Fixpoint follows (url : string) (params : option Z) (rs : list Response)
    (w : World Srv) : Prop :=
  match rs with
  | [] => True
  | r :: rest =>
      (serve (GetAffinity url params) (server w)).1 = Responded r
      /\ ok r = true
      /\ match rest with
         | [] => linked_url AFFINITY_BASE_URL r = None
         | _ => exists next,
                  linked_url AFFINITY_BASE_URL r = Some next
                  /\ follows next None rest
                       (after_call serve (GetAffinity url params) w)
         end
  end.

End MoreVocabulary.

(* ===================================================================== *)
(** * A scripted server *)
(* ===================================================================== *)

(** A remote side with a state: it answers the successive calls with the
    replies of a script, whatever the calls are, and with a transport
    failure once the script is used up. *)
Module Script.

Definition serve (q : Request) (script : list Reply) : Reply * list Reply :=
  match script with
  | reply :: rest => (reply, rest)
  | [] => (Failed, [])
  end.

Definition start (script : list Reply) : World (list Reply) :=
  {| server := script; calls := [] |}.

End Script.

(* ===================================================================== *)
(** * A worked scenario *)
(* ===================================================================== *)

(** The data of the reconciliation example: the source map a:1, b:2 and
    three records with the domains [a], [a, b] and [c]. *)
Module Scenario.

(** The float of an integer that binary64 holds exactly. *)
Definition num (n : Z) : float := binary_normalize 53 1024 n 0 false.

Definition source_map : gmap string float :=
  <["a" := num 1]> (<["b" := num 2]> ∅).

Definition record (id name : string) (domains : list string) : Entry :=
  {| entry_id := Some id; entity_name := Some name;
     entity_domains := Some domains |}.

Definition records : list Entry :=
  [ record "1" "first" ["a"];
    record "2" "second" ["a"; "b"];
    record "3" "third" ["c"] ].

(** The values of [urlparse] at the URLs of the scenario. *)
Definition urlparse (url : string) : option ParseResult :=
  if String.eqb url "https://www.Example.com/"
  then Some {| netloc := "www.Example.com"; path := "/" |}
  else None.

(** The values of [float(s)] at the strings of the scenario. *)
Definition float_of_string (s : string) : option float :=
  if String.eqb s "2" then Some (num 2) else None.

Definition base_url : string := "https://api.affinity.co".

Definition no_body : Body :=
  {| portfolio_company_profiles := None; metrics := None;
     data_points := None; portfolio_properties := None;
     portfolio_property_values := None; total_pages := None;
     data := None; nextUrl := None |}.

Definition respond (status : Z) (b : Body) : Reply :=
  Responded {| status_code := status; body := b |}.

Definition companies_page (cs : list Company) (total : Z) : Body :=
  {| portfolio_company_profiles := Some cs; metrics := None;
     data_points := None; portfolio_properties := None;
     portfolio_property_values := None; total_pages := Some total;
     data := None; nextUrl := None |}.

Definition metrics_page (ms : list Metric) : Body :=
  {| portfolio_company_profiles := None; metrics := Some ms;
     data_points := None; portfolio_properties := None;
     portfolio_property_values := None; total_pages := None;
     data := None; nextUrl := None |}.

Definition points_page (ps : list DataPoint) : Body :=
  {| portfolio_company_profiles := None; metrics := None;
     data_points := Some ps; portfolio_properties := None;
     portfolio_property_values := None; total_pages := Some 1%Z;
     data := None; nextUrl := None |}.

Definition properties_body (ps : list Property) : Body :=
  {| portfolio_company_profiles := None; metrics := None;
     data_points := None; portfolio_properties := Some ps;
     portfolio_property_values := None; total_pages := None;
     data := None; nextUrl := None |}.

Definition values_body (vs : list PropertyValue) : Body :=
  {| portfolio_company_profiles := None; metrics := None;
     data_points := None; portfolio_properties := None;
     portfolio_property_values := Some vs; total_pages := None;
     data := None; nextUrl := None |}.

Definition entries_page (es : list Entry) (next : option string) : Body :=
  {| portfolio_company_profiles := None; metrics := None;
     data_points := None; portfolio_properties := None;
     portfolio_property_values := None; total_pages := None;
     data := Some es; nextUrl := next |}.

(** What goes wrong on the remote side, if anything. *)
Inductive Fault : Type :=
| NoFault
| NoCompanies        (* Visible lists no portfolio company *)
| CompaniesPage2Down (* Visible answers 500 for page 2 of the companies *)
| EntriesPage2Down   (* Affinity answers 500 for page 2 of the list *)
| HugeValue.         (* the data point of the first company is 10^400 *)

Definition alpha : Company :=
  {| profile_name := Some "Alpha"; profile_id := Some "ca" |}.
Definition beta : Company :=
  {| profile_name := Some "Beta"; profile_id := Some "cb" |}.

Definition website_value (site : string) : PropertyValue :=
  {| pv_property_id := Some "w"; pv_value := Some site |}.

Definition entries_url : string := base_url ++ "/v2/lists/L/list-entries".
Definition next_link : string := "/v2/lists/L/list-entries?cursor=2".

(** A remote side without state of its own: two companies on two pages,
    with the websites "a" and "b" and the latest values 1 and "2"; three
    list entries on two pages; the update of entry 1 succeeds and every
    other update is answered 500. *)
Definition serve (fault : Fault) (q : Request) (s : unit) : Reply * unit :=
  (match q with
   | GetCompanyProfiles page =>
       match fault with
       | NoCompanies => respond 200 (companies_page [] 1)
       | _ =>
           if (page =? 1)%Z then respond 200 (companies_page [alpha] 2)
           else if (page =? 2)%Z then
             match fault with
             | CompaniesPage2Down => respond 500 no_body
             | _ => respond 200 (companies_page [beta] 2)
             end
           else respond 404 no_body
       end
   | GetPortfolioProperties =>
       respond 200 (properties_body
                      [{| property_id := "w"; property_name := "Website" |}])
   | GetPropertyValues profile =>
       if bool_decide (profile = Some "ca")
       then respond 200 (values_body [website_value "a"])
       else if bool_decide (profile = Some "cb")
       then respond 200 (values_body [website_value "b"])
       else respond 200 (values_body [])
   | GetMetrics page filter =>
       if bool_decide (filter = Some (Some "ca"))
       then respond 200 (metrics_page
                           [{| m_id := "ma"; m_name := Some "Runway" |}])
       else if bool_decide (filter = Some (Some "cb"))
       then respond 200 (metrics_page
                           [{| m_id := "mb"; m_name := Some " runway " |}])
       else respond 200 (metrics_page [])
   | GetDataPoints metric page =>
       if String.eqb metric "ma" then
         respond 200 (points_page
           [{| dp_date := Some "2024-01-31";
               dp_value := match fault with
                           | HugeValue => JInt (10 ^ 400)
                           | _ => JInt 1
                           end |};
            {| dp_date := Some "2024-02-29"; dp_value := JNull |}])
       else if String.eqb metric "mb" then
         respond 200 (points_page
           [{| dp_date := Some "2024-01-31"; dp_value := JStr "2" |}])
       else respond 404 no_body
   | GetAffinity url limit =>
       if String.eqb url entries_url then
         respond 200 (entries_page
                        [record "1" "first" ["a"];
                         record "2" "second" ["a"; "b"]]
                        (Some next_link))
       else if String.eqb url (base_url ++ next_link) then
         match fault with
         | EntriesPage2Down => respond 500 no_body
         | _ => respond 200 (entries_page [record "3" "third" ["c"]] None)
         end
       else respond 404 no_body
   | PatchAffinity url field value =>
       if String.eqb url (base_url ++ "/v2/lists/L/list-entries/1/fields")
       then respond 200 no_body
       else respond 500 no_body
   end, s).

(** The two pages of companies, and a page answered 500. *)
Definition companies_page_1 : Response :=
  {| status_code := 200; body := companies_page [alpha] 2 |}.
Definition companies_page_2 : Response :=
  {| status_code := 200; body := companies_page [beta] 2 |}.
Definition page_down : Response := {| status_code := 500; body := no_body |}.

(** The world at the start of a run. *)
Definition start : World unit := {| server := tt; calls := [] |}.

End Scenario.

(** More data for the worked scenario. *)
Module MoreScenario.
Import Scenario.

(** A company without a website value. *)
Definition gamma : Company :=
  {| profile_name := Some "Gamma"; profile_id := Some "cc" |}.

(** A page of metrics with a repeated name, a missing one and an empty
    one. *)
Definition names_page : Response :=
  {| status_code := 200;
     body := metrics_page
               [{| m_id := "1"; m_name := Some "Runway" |};
                {| m_id := "2"; m_name := None |};
                {| m_id := "3"; m_name := Some "Burn" |};
                {| m_id := "4"; m_name := Some "" |};
                {| m_id := "5"; m_name := Some "Runway" |}] |}.

(** The page of data points of the first company's metric. *)
Definition points_of_alpha : Response :=
  {| status_code := 200;
     body := points_page
               [{| dp_date := Some "2024-01-31"; dp_value := JInt 1 |};
                {| dp_date := Some "2024-02-29"; dp_value := JNull |}] |}.

(** The two pages of list entries. *)
Definition entries_page_1 : Response :=
  {| status_code := 200;
     body := entries_page [record "1" "first" ["a"];
                           record "2" "second" ["a"; "b"]]
               (Some next_link) |}.
Definition entries_page_2 : Response :=
  {| status_code := 200;
     body := entries_page [record "3" "third" ["c"]] None |}.

End MoreScenario.

(* ===================================================================== *)
(** * Properties of the string operations *)
(* ===================================================================== *)

Module PyStrFacts.
Import PyStr.

Lemma lower_char_idem c : lower_char (lower_char c) = lower_char c.
Proof. destruct c as [[] [] [] [] [] [] [] []]; reflexivity. Qed.

Lemma lower_fixed s : all_chars fixed_by_lower (lower s) = true.
Proof.
  induction s as [|c s IH]; simpl; [reflexivity|].
  rewrite IH, andb_true_r. unfold fixed_by_lower.
  rewrite lower_char_idem. apply Ascii.eqb_refl.
Qed.

Lemma lower_of_fixed s : all_chars fixed_by_lower s = true -> lower s = s.
Proof.
  induction s as [|c s IH]; simpl; [reflexivity|].
  intros [Hc Hs]%andb_true_iff.
  apply Ascii.eqb_eq in Hc. rewrite Hc, IH; auto.
Qed.

Lemma remove_from_all P old s :
  all_chars P s = true -> forall k, all_chars P (remove_from old k s) = true.
Proof.
  induction s as [|c s IH]; intros H k; [reflexivity|].
  cbn [all_chars] in H. apply andb_true_iff in H as [Hc Hs].
  cbn [remove_from]. destruct k as [|k]; [|auto].
  destruct (String.prefix old (String c s)); [auto|].
  cbn [all_chars]. rewrite Hc. simpl. auto.
Qed.

Lemma lstrip_all P Q s : all_chars P s = true -> all_chars P (lstrip Q s) = true.
Proof.
  induction s as [|c s IH]; simpl; [reflexivity|].
  intros H. destruct (Q c); [|exact H].
  apply andb_true_iff in H as [_ Hs]. auto.
Qed.

Lemma rstrip_all P Q s : all_chars P s = true -> all_chars P (rstrip Q s) = true.
Proof.
  induction s as [|c s IH]; simpl; [reflexivity|].
  intros [Hc Hs]%andb_true_iff. specialize (IH Hs).
  destruct (rstrip Q s) as [|c' r].
  - destruct (Q c); cbn [all_chars]; [reflexivity|]. rewrite Hc. reflexivity.
  - change (P c && all_chars P (String c' r) = true). rewrite Hc, IH. reflexivity.
Qed.

Lemma remove_absent old s : contains old s = false -> remove_all old s = s.
Proof.
  unfold remove_all. induction s as [|c s IH]; [reflexivity|].
  cbn [contains remove_from]. intros [Hp Hs]%orb_false_iff.
  rewrite Hp, IH; auto.
Qed.

Lemma lstrip_id P s : starts_with P s = false -> lstrip P s = s.
Proof. destruct s as [|c s]; simpl; [reflexivity|]. intros ->. reflexivity. Qed.

Lemma rstrip_id P s : ends_with P s = false -> rstrip P s = s.
Proof.
  induction s as [|c s IH]; [reflexivity|].
  cbn [ends_with rstrip]. destruct s as [|c' s'].
  - simpl. intros ->. reflexivity.
  - intros H. rewrite (IH H). reflexivity.
Qed.

Lemma rstrip_ends P s : ends_with P (rstrip P s) = false.
Proof.
  induction s as [|c s IH]; [reflexivity|].
  cbn [rstrip]. destruct (rstrip P s) as [|c' r] eqn:E.
  - destruct (P c) eqn:Hc; simpl; [reflexivity|exact Hc].
  - exact IH.
Qed.

Lemma lstrip_starts P s : starts_with P (lstrip P s) = false.
Proof.
  induction s as [|c s IH]; [reflexivity|].
  simpl. destruct (P c) eqn:Hc; [exact IH|]. simpl. exact Hc.
Qed.

Lemma rstrip_starts P Q s :
  starts_with P s = false -> starts_with P (rstrip Q s) = false.
Proof.
  destruct s as [|c s]; [reflexivity|].
  cbn [rstrip starts_with]. intros Hc.
  destruct (rstrip Q s); [destruct (Q c)|]; simpl; auto.
Qed.

Lemma strip_starts s : starts_with is_space (strip s) = false.
Proof. unfold strip. apply rstrip_starts, lstrip_starts. Qed.

End PyStrFacts.

(* ===================================================================== *)
(** * Properties of [normalize_domain] *)
(* ===================================================================== *)

Section NormalizeFacts.
Import PyStr PyStrFacts.

Variable urlparse : string -> option ParseResult.

(** What [normalize_domain] returns is the empty string or a cleaned host. *)
Lemma normalize_domain_shape url d :
  normalize_domain urlparse url = Ok d ->
  d = "" \/ exists host, d = cleaned host.
Proof.
  unfold normalize_domain.
  destruct (String.eqb url "" || String.eqb url "N/A").
  - intros [= <-]. now left.
  - destruct (contains "://" url).
    + destruct (urlparse url) as [parsed|]; [|discriminate].
      intros [= <-]. right. eexists. reflexivity.
    + intros [= <-]. right. eexists. reflexivity.
Qed.

Lemma cleaned_lower host : all_chars fixed_by_lower (cleaned host) = true.
Proof.
  unfold cleaned, strip, remove_all.
  apply rstrip_all, rstrip_all, lstrip_all, remove_from_all, lower_fixed.
Qed.

Lemma cleaned_starts host : starts_with is_space (cleaned host) = false.
Proof. unfold cleaned. apply rstrip_starts, strip_starts. Qed.

Lemma cleaned_ends host : ends_with is_slash (cleaned host) = false.
Proof. unfold cleaned. apply rstrip_ends. Qed.

(** A string that lower-casing leaves alone is not the sentinel. *)
Lemma lower_fixed_not_sentinel d :
  all_chars fixed_by_lower d = true -> String.eqb d "N/A" = false.
Proof.
  intros H. destruct (String.eqb_spec d "N/A") as [->|]; [|reflexivity].
  discriminate H.
Qed.

(** The cleaning steps leave alone a string that is already clean. *)
Lemma cleaned_fixpoint d :
  all_chars fixed_by_lower d = true ->
  contains "www." d = false ->
  starts_with is_space d = false ->
  ends_with is_space d = false ->
  ends_with is_slash d = false ->
  cleaned d = d.
Proof.
  intros Hlow Hwww Hst Hsp Hsl. unfold cleaned, strip.
  rewrite (lower_of_fixed _ Hlow), (remove_absent _ _ Hwww).
  rewrite (lstrip_id _ _ Hst), (rstrip_id _ _ Hsp).
  apply rstrip_id, Hsl.
Qed.

(** C2, as amended: normalizing a second time changes nothing whenever the
    first result contains neither "://" nor "www." and does not end in a
    whitespace character. *)
Theorem normalize_domain_idempotent_when_clean (x d : string) :
  normalize_domain urlparse x = Ok d ->
  contains "://" d = false ->
  contains "www." d = false ->
  ends_with is_space d = false ->
  normalize_domain urlparse d = Ok d.
Proof.
  intros Hx Hscheme Hwww Hsp.
  destruct (normalize_domain_shape _ _ Hx) as [->|[host ->]]; [reflexivity|].
  unfold normalize_domain.
  rewrite (lower_fixed_not_sentinel _ (cleaned_lower host)), orb_false_r.
  destruct (String.eqb (cleaned host) "") eqn:E.
  - apply String.eqb_eq in E. rewrite E. reflexivity.
  - rewrite Hscheme. f_equal.
    apply cleaned_fixpoint;
      auto using cleaned_lower, cleaned_starts, cleaned_ends.
Qed.

(** C4, as amended: on a host that is neither empty nor the sentinel (the
    input itself, or what [urlparse] extracts when the input has a scheme
    separator), the result is the host lower-cased, with every "www."
    removed, stripped of surrounding whitespace and of ALL its trailing
    slashes; so the result never ends in a slash. *)
Theorem normalize_domain_steps (url host : string) :
  url <> "" ->
  url <> "N/A" ->
  (if contains "://" url
   then exists parsed, urlparse url = Some parsed /\
          host = (if String.eqb (netloc parsed) "" then path parsed
                  else netloc parsed)
   else host = url) ->
  normalize_domain urlparse url
  = Ok (rstrip is_slash (strip (remove_all "www." (lower host))))
  /\ ends_with is_slash
       (rstrip is_slash (strip (remove_all "www." (lower host)))) = false.
Proof.
  intros Hne Hna Hhost. split; [|apply rstrip_ends].
  unfold normalize_domain.
  apply String.eqb_neq in Hne, Hna. rewrite Hne, Hna. cbn [orb].
  destruct (contains "://" url).
  - destruct Hhost as (parsed & -> & ->). reflexivity.
  - subst host. reflexivity.
Qed.

End NormalizeFacts.

(** C2, as stated, fails: "a /" normalizes to "a " (the slash goes after the
    whitespace was stripped), and "a " normalizes to "a". No [urlparse]
    changes that, as the input has no scheme separator. *)
Lemma normalize_domain_not_idempotent :
  ~ exists urlparse, forall x d,
      normalize_domain urlparse x = Ok d -> normalize_domain urlparse d = Ok d.
Proof.
  intros [urlparse H].
  specialize (H "a /" "a " eq_refl). discriminate H.
Qed.

(** The two other ways in which a second normalization differs. *)
Example normalize_domain_www_reappears urlparse :
  normalize_domain urlparse "wwwwww.." = Ok "www."
  /\ normalize_domain urlparse "www." = Ok "".
Proof. split; reflexivity. Qed.

Example normalize_domain_scheme_appears urlparse :
  normalize_domain urlparse "a:www.//b" = Ok "a://b"
  /\ normalize_domain urlparse "a://b"
     = match urlparse "a://b" with
       | Some parsed =>
           Ok (cleaned (if String.eqb (netloc parsed) "" then path parsed
                        else netloc parsed))
       | None => Raise ValueError
       end.
Proof. split; [reflexivity|]. unfold normalize_domain. simpl. destruct (urlparse "a://b"); reflexivity. Qed.

(** C4, as stated, fails: of the two trailing slashes of "example.com//"
    none is kept, whatever [urlparse] is. *)
Lemma normalize_domain_strips_every_slash :
  ~ exists urlparse d,
      normalize_domain urlparse "example.com//" = Ok d
      /\ PyStr.ends_with PyStr.is_slash d = true.
Proof. intros (urlparse & d & [= <-] & H). discriminate H. Qed.

(* ===================================================================== *)
(** * Frame reasoning for [prog] *)
(* ===================================================================== *)

(** The rules of [respects] for a preorder [R], one per constructor of
    [prog]. *)
Section Frame.
Context {S : Type} (R : S -> S -> Prop) `{!PreOrder R}.

Lemma respects_ret {A} (a : A) : respects R (ret a).
Proof. intros s. reflexivity. Qed.

Lemma respects_raise {A} e : respects R (@raise S A e).
Proof. intros s. reflexivity. Qed.

Lemma respects_out_of_fuel {A} : respects R (@out_of_fuel S A).
Proof. intros s. reflexivity. Qed.

Lemma respects_lift {A} (r : result A) : respects R (lift r).
Proof. intros s. reflexivity. Qed.

Lemma respects_get_state : respects R get_state.
Proof. intros s. reflexivity. Qed.

Lemma respects_bind {A B} (m : prog S A) (k : A -> prog S B) :
  respects R m -> (forall a, respects R (k a)) -> respects R (bind m k).
Proof.
  intros Hm Hk s. unfold bind. specialize (Hm s).
  destruct (m s) as [[a|e|] s']; simpl in *; auto.
  etransitivity; [exact Hm|apply Hk].
Qed.

Lemma respects_try_except {A} (m : prog S A) catches handler :
  respects R m -> (forall e, respects R (handler e)) ->
  respects R (try_except m catches handler).
Proof.
  intros Hm Hh s. unfold try_except. specialize (Hm s).
  destruct (m s) as [[a|e|] s']; simpl in *; auto.
  destruct (catches e); simpl; auto.
  etransitivity; [exact Hm|apply Hh].
Qed.

Lemma respects_for_each {A B} (xs : list A) (body : B -> A -> prog S B) acc :
  (forall b a, respects R (body b a)) -> respects R (for_each xs body acc).
Proof.
  intros Hb. revert acc. induction xs as [|x xs IH]; intros acc; simpl.
  - apply respects_ret.
  - apply respects_bind; auto.
Qed.

End Frame.

(* ===================================================================== *)
(** * Properties of the matching step (main.py, step 3) *)
(* ===================================================================== *)

Section MatchingFacts.

Variable urlparse : string -> option ParseResult.

Lemma extends_by_app es1 es2 st1 st2 st3 ms1 ms2 us1 us2 :
  extends_by es1 st1 st2 ms1 us1 ->
  extends_by es2 st2 st3 ms2 us2 ->
  extends_by (es1 ++ es2) st1 st3 (ms1 ++ ms2) (us1 ++ us2).
Proof.
  intros [V1 M1 U1 X1 F1 (c1 & S1 & C1) N1] [V2 M2 U2 X2 F2 (c2 & S2 & C2) N2].
  split.
  - congruence.
  - rewrite M2, M1, app_assoc. reflexivity.
  - rewrite U2, U1, app_assoc. reflexivity.
  - rewrite X2, X1, fmap_app, list_to_set_app_L. set_solver.
  - apply Forall_app. split; [exact F1|]. rewrite <- V1. exact F2.
  - exists (c1 ++ c2)%list. split; [apply sublist_app; auto|apply Forall2_app; auto].
  - rewrite !length_app. lia.
Qed.

(** A record, or a run of records, that leaves the state alone. *)
Lemma extends_by_skip entries st : extends_by entries st st [] [].
Proof.
  split; rewrite ?app_nil_r; simpl; auto; try lia.
  - set_solver.
  - exists []. split; [apply sublist_nil_l|constructor].
Qed.

(** The records that were not reached (an exception ended the loop) add
    nothing. *)
Lemma extends_by_more es rest st st' ms us :
  extends_by es st st' ms us -> extends_by (es ++ rest) st st' ms us.
Proof.
  intros H. rewrite <- (app_nil_r ms), <- (app_nil_r us).
  eapply extends_by_app; [exact H|apply extends_by_skip].
Qed.

Lemma extends_by_match entry st m :
  claimed_by entry m ->
  visible_data st !! domain m = Some (metric_value m) ->
  extends_by [entry] st (with_match st m) [m] [].
Proof.
  intros Hc Hv. split; rewrite ?app_nil_r; simpl; auto.
  - set_solver.
  - exists [entry]. split; [reflexivity|]. constructor; [exact Hc|constructor].
Qed.

Lemma extends_by_unmatched entry st u :
  extends_by [entry] st (with_unmatched st u) [] [u].
Proof.
  split; rewrite ?app_nil_r; simpl; auto.
  - set_solver.
  - exists []. split; [apply sublist_nil_l|constructor].
Qed.

(** [scan_domains] changes nothing, or appends one match and says so. *)
Lemma scan_domains_effect name id domains st :
  let r := scan_domains urlparse name id domains st in
  (r.1 <> Ok true /\ r.2 = st)
  \/ exists n v,
       r.1 = Ok true
       /\ visible_data st !! n = Some v
       /\ r.2 = with_match st {| company_name := name; list_entry_id := id;
                                 domain := n; metric_value := v |}.
Proof.
  induction domains as [|d rest IH]; simpl.
  - left. split; [discriminate|reflexivity].
  - unfold bind, lift, get_state, put_state, ret.
    destruct (normalize_domain urlparse d) as [n|e|]; simpl.
    + destruct (visible_data st !! n) as [v|] eqn:E; simpl.
      * right. exists n, v. auto.
      * exact IH.
    + left. split; [discriminate|reflexivity].
    + left. split; [discriminate|reflexivity].
Qed.

Lemma match_entry_effect entry st :
  exists ms us,
    extends_by [entry] st (match_entry urlparse entry st).2 ms us.
Proof.
  unfold match_entry, bind.
  destruct (scan_domains_effect
              (default "Unknown" (entity_name entry)) (entry_id entry)
              (default [] (entity_domains entry)) st)
    as [[Hr Hst]|(n & v & Hr & Hv & Hst)];
    destruct (scan_domains _ _ _ _ st) as [r st1]; simpl in *; subst.
  - destruct r as [[]| |]; simpl; try congruence;
      [|exists [], []; apply extends_by_skip..].
    destruct (bool_decide _); simpl.
    + exists [], []. apply extends_by_skip.
    + eexists [], [_]. apply extends_by_unmatched.
  - simpl. eexists [_], []. apply extends_by_match; [split|]; auto.
Qed.

Lemma match_companies_effect entries st :
  exists ms us,
    extends_by entries st (match_companies urlparse entries st).2 ms us.
Proof.
  unfold match_companies. revert st.
  induction entries as [|entry entries IH]; intros st; simpl.
  - exists [], []. apply extends_by_skip.
  - unfold bind.
    destruct (match_entry_effect entry st) as (ms1 & us1 & H1).
    destruct (match_entry urlparse entry st) as [[[]|e|] st1]; simpl in *.
    + destruct (IH st1) as (ms2 & us2 & H2).
      exists (ms1 ++ ms2)%list, (us1 ++ us2)%list.
      apply (extends_by_app [entry] entries _ _ _ _ _ _ _ H1 H2).
    + exists ms1, us1. apply (extends_by_more [entry]), H1.
    + exists ms1, us1. apply (extends_by_more [entry]), H1.
Qed.

(** The first domain, in listed order, whose normal form is a key of the
    source map wins, whether or not an earlier record matched that key. *)
Lemma scan_domains_first name id before d after st n v :
  Forall (fun d' => exists n', normalize_domain urlparse d' = Ok n'
                               /\ visible_data st !! n' = None) before ->
  normalize_domain urlparse d = Ok n ->
  visible_data st !! n = Some v ->
  scan_domains urlparse name id (before ++ d :: after) st
  = (Ok true, with_match st {| company_name := name; list_entry_id := id;
                               domain := n; metric_value := v |}).
Proof.
  intros Hb Hd Hv. induction Hb as [|d' before (n' & Hn' & Hv') _ IH]; simpl.
  - unfold bind, lift, get_state, put_state, ret. rewrite Hd. simpl.
    rewrite Hv. reflexivity.
  - unfold bind, lift, get_state. rewrite Hn'. simpl. rewrite Hv'. exact IH.
Qed.

(** C9: the matching step leaves the source metric map as it found it,
    for every record list and however the step ends. *)
Theorem match_companies_keeps_visible_data
    (entries : list Entry) (st : Matching) :
  visible_data (match_companies urlparse entries st).2 = visible_data st.
Proof.
  destruct (match_companies_effect entries st) as (ms & us & H).
  apply (ext_visible _ _ _ _ _ H).
Qed.

(** X1: a record without domains (an empty list, or no list at all) leaves
    the state alone: it is counted neither as matched nor as unmatched. *)
Theorem match_entry_without_domains
    (id name : option string) (st : Matching) :
  match_entry urlparse
    {| entry_id := id; entity_name := name; entity_domains := Some [] |} st
  = (Ok tt, st)
  /\ match_entry urlparse
       {| entry_id := id; entity_name := name; entity_domains := None |} st
     = (Ok tt, st).
Proof. split; reflexivity. Qed.

End MatchingFacts.

(** C1, as stated, fails: on the example the second record matches on "a"
    again, so "b" stays unmatched on the source side. *)
Lemma match_companies_key_claimed_twice :
  ~ exists urlparse,
      let r := match_companies urlparse Scenario.records
                 (start_matching Scenario.source_map) in
      r.1 = Ok tt
      /\ domain <$> matches r.2 = ["a"; "b"]
      /\ size (unmatched_visible r.2) = 0
      /\ List.length (unmatched_affinity r.2) = 1.
Proof.
  intros (urlparse & H). vm_compute in H.
  destruct H as (_ & H & _). discriminate H.
Qed.

(* ===================================================================== *)
(** * Properties of the collections *)
(* ===================================================================== *)

Section CollectionFacts.

Context {Srv : Type}.
Variable serve : Request -> Srv -> Reply * Srv.

Lemma http_call q (w : World Srv) :
  http serve q w
  = (match (serve q (server w)).1 with
     | Responded r => Ok r
     | Failed => Raise TransportError
     end, after_call serve q w).
Proof.
  unfold http, after_call. destruct (serve q (server w)) as [[r|] srv'];
    reflexivity.
Qed.

Lemma items_of_app {A} (key : Body -> option (list A)) rs1 rs2 :
  items_of key (rs1 ++ rs2) = (items_of key rs1 ++ items_of key rs2)%list.
Proof. unfold items_of. rewrite fmap_app. apply concat_app. Qed.

Lemma items_of_cons {A} (key : Body -> option (list A)) r rs :
  items_of key (r :: rs) = (default [] (key (body r)) ++ items_of key rs)%list.
Proof. reflexivity. Qed.

(** The loop over successful pages: it returns once a page number reaches
    the total that its response reports, with the items read so far. *)
Lemma page_loop_reads {A} request (key : Body -> option (list A)) rs :
  forall page acc w fuel,
    answers serve request page (Responded <$> rs) w ->
    Forall (fun r => ok r = true) rs ->
    (exists r, last rs = Some r
               /\ (page + Z.of_nat (List.length rs) - 1
                   >= default 1 (total_pages (body r)))%Z) ->
    List.length rs <= fuel ->
    (page_loop serve request key fuel page acc w).1
    = Ok (acc ++ items_of key (pages_read page rs))%list.
Proof.
  induction rs as [|r rs IH]; intros page acc w fuel Hans Hok Hlast Hfuel.
  - destruct Hlast as (r & [=] & _).
  - destruct fuel as [|fuel]; [simpl in Hfuel; lia|].
    destruct Hans as [Hr Hans]. apply Forall_cons in Hok as [Hokr Hok].
    cbn [page_loop pages_read]. unfold bind. rewrite http_call, Hr, Hokr.
    cbn [negb]. destruct (page >=? _)%Z eqn:Hstop.
    + unfold items_of. simpl. rewrite app_nil_r. reflexivity.
    + rewrite items_of_cons, app_assoc.
      apply IH; auto.
      * destruct Hlast as (r' & Hl & Hge). destruct rs as [|r2 rs].
        -- simpl in Hl, Hge. injection Hl as <-. lia.
        -- exists r'. split; [exact Hl|]. simpl List.length in *. lia.
      * simpl in Hfuel. lia.
Qed.

(** When the earlier pages all report more pages than their own number,
    every page is read. *)
Lemma pages_read_all page (rs : list Response) r :
  continues page rs -> pages_read page (rs ++ [r])%list = (rs ++ [r])%list.
Proof.
  revert page. induction rs as [|r' rs IH]; intros page; simpl.
  - intros _. destruct (page >=? _)%Z; reflexivity.
  - intros (_ & Hlt & Hc). destruct (page >=? _)%Z eqn:E; [lia|].
    rewrite IH; auto.
Qed.

(** The loop over pages that go on, followed by a page that fails: it
    returns the items of the pages before the failure. *)
Lemma page_loop_partial {A} request (key : Body -> option (list A))
    (rs : list Response) (bad : Response) :
  forall page acc w fuel,
    answers serve request page (Responded <$> (rs ++ [bad])%list) w ->
    continues page rs ->
    ok bad = false ->
    List.length rs < fuel ->
    (page_loop serve request key fuel page acc w).1
    = Ok (acc ++ items_of key rs)%list.
Proof.
  induction rs as [|r rs IH]; intros page acc w fuel Hans Hc Hbad Hfuel.
  - destruct fuel as [|fuel]; [simpl in Hfuel; lia|].
    destruct Hans as [Hr _].
    cbn [page_loop]. unfold bind. rewrite http_call, Hr, Hbad.
    rewrite app_nil_r. reflexivity.
  - destruct fuel as [|fuel]; [simpl in Hfuel; lia|].
    destruct Hans as [Hr Hans]. destruct Hc as (Hokr & Hlt & Hc).
    cbn [page_loop]. unfold bind. rewrite http_call, Hr, Hokr.
    cbn [negb]. destruct (page >=? _)%Z eqn:Hstop; [lia|].
    rewrite items_of_cons, app_assoc.
    apply IH; auto. simpl in Hfuel. lia.
Qed.

End CollectionFacts.

(* ===================================================================== *)
(** * Which calls a piece of the program makes *)
(* ===================================================================== *)

#[local] Instance logs_preorder {Srv} P : PreOrder (@logs Srv P).
Proof.
  split.
  - intros w. exists []. rewrite app_nil_r. auto.
  - intros w1 w2 w3 (n1 & E1 & F1) (n2 & E2 & F2).
    exists (n1 ++ n2)%list. rewrite E2, E1, app_assoc.
    split; [reflexivity|apply Forall_app; auto].
Qed.

(** [by_frame L]: apply the frame lemma [L], at the preorder of the goal. *)
Ltac by_frame L := apply L; try exact _.

(** One step of a frame proof: strip a constructor of [prog], or split on
    the condition the code branches on. *)
Ltac frame_step :=
  first
    [ by_frame @respects_ret | by_frame @respects_raise
    | by_frame @respects_out_of_fuel
    | by_frame @respects_lift | by_frame @respects_get_state
    | by_frame @respects_bind; [|intros ?]
    | by_frame @respects_try_except; [|intros ?]
    | by_frame @respects_for_each; intros ? ?
    | match goal with
      | |- respects _ (if ?b then _ else _) => destruct b
      | |- respects _ (match ?x with _ => _ end) => destruct x
      | |- respects _ (let (_, _) := ?x in _) => destruct x
      end ].

Section CallFacts.

Context {Srv : Type}.
Variable serve : Request -> Srv -> Reply * Srv.
Variable urlparse : string -> option ParseResult.
Variable float_of_string : string -> option float.
Variable AFFINITY_BASE_URL : string.

Variable P : Request -> bool.

Lemma http_logs q : P q = true -> respects (logs P) (http serve q).
Proof.
  intros HP w. rewrite http_call. simpl.
  exists [(q, (serve q (server w)).1)]. split; [reflexivity|].
  constructor; [exact HP|constructor].
Qed.

Lemma page_loop_logs {A} request (key : Body -> option (list A)) fuel :
  (forall page, P (request page) = true) ->
  forall page acc, respects (logs P) (page_loop serve request key fuel page acc).
Proof.
  intros HP. induction fuel as [|fuel IH]; intros page acc; simpl.
  - by_frame @respects_out_of_fuel.
  - by_frame @respects_bind; [apply http_logs, HP|intros r].
    repeat frame_step. apply IH.
Qed.

Lemma latest_loop_logs metric fuel :
  (forall page, P (GetDataPoints metric page) = true) ->
  forall page latest,
    respects (logs P) (latest_loop serve metric fuel page latest).
Proof.
  intros HP. induction fuel as [|fuel IH]; intros page latest; simpl.
  - by_frame @respects_out_of_fuel.
  - by_frame @respects_bind; [apply http_logs, HP|intros r].
    repeat frame_step. apply IH.
Qed.

Lemma entries_loop_logs fuel :
  (forall url limit, P (GetAffinity url limit) = true) ->
  forall url params acc,
    respects (logs P) (entries_loop serve AFFINITY_BASE_URL fuel url params acc).
Proof.
  intros HP. induction fuel as [|fuel IH]; intros url params acc; simpl.
  - by_frame @respects_out_of_fuel.
  - destruct url as [u|]; [|by_frame @respects_ret].
    destruct (String.eqb u ""); [by_frame @respects_ret|].
    by_frame @respects_bind; [apply http_logs, HP|intros r].
    by_frame @respects_bind; [unfold raise_for_status; repeat frame_step|intros _].
    apply IH.
Qed.

(** Everything [fetch_visible_metric_data] calls is a request to Visible. *)
Lemma fetch_visible_metric_data_logs fuel metric_name :
  (forall q, is_visible_request q = true -> P q = true) ->
  respects (logs P)
    (fetch_visible_metric_data serve urlparse float_of_string fuel metric_name).
Proof.
  intros HP. unfold fetch_visible_metric_data.
  by_frame @respects_bind; [apply page_loop_logs; intros; apply HP; reflexivity|].
  intros companies.
  by_frame @respects_bind.
  { unfold get_website_property_id.
    by_frame @respects_bind; [apply http_logs, HP; reflexivity|intros r].
    repeat frame_step. }
  intros [wid|]; [|by_frame @respects_ret].
  destruct (String.eqb wid ""); [by_frame @respects_ret|].
  by_frame @respects_for_each. intros acc company. unfold fetch_company.
  by_frame @respects_bind.
  { unfold get_company_website.
    by_frame @respects_bind; [apply http_logs, HP; reflexivity|intros r].
    repeat frame_step. }
  intros [website|]; [|by_frame @respects_ret].
  destruct (_ || _); [by_frame @respects_ret|].
  by_frame @respects_bind; [by_frame @respects_lift|intros nd].
  destruct (String.eqb nd ""); [by_frame @respects_ret|].
  by_frame @respects_bind;
    [apply page_loop_logs; intros; apply HP; reflexivity|intros ms].
  destruct (List.find _ ms) as [metric|]; [|by_frame @respects_ret].
  by_frame @respects_bind;
    [apply latest_loop_logs; intros; apply HP; reflexivity|intros latest].
  repeat frame_step.
Qed.

(** Everything steps 1 to 3 call is a [GET]. *)
Lemma reconcile_logs fuel list_id metric_name :
  (forall q, is_patch q = false -> P q = true) ->
  respects (logs P)
    (reconcile serve urlparse float_of_string AFFINITY_BASE_URL
       fuel list_id metric_name).
Proof.
  intros HP. unfold reconcile.
  by_frame @respects_bind.
  { apply fetch_visible_metric_data_logs. intros q Hq. apply HP.
    destruct q; try reflexivity; discriminate Hq. }
  intros visible. destruct (bool_decide _); [by_frame @respects_ret|].
  by_frame @respects_bind.
  { apply entries_loop_logs. intros. apply HP. reflexivity. }
  intros entries. repeat frame_step.
Qed.

End CallFacts.

(* ===================================================================== *)
(** * The collections, page by page *)
(* ===================================================================== *)

Section PagingTheorems.

Context {Srv : Type}.
Variable serve : Request -> Srv -> Reply * Srv.
Variable AFFINITY_BASE_URL : string.

Lemma page_collection_loop {A} collect request (key : Body -> option (list A)) :
  page_collection serve collect request key ->
  forall fuel, collect fuel = page_loop serve request key fuel 1%Z [].
Proof. intros []; reflexivity. Qed.

(** C5: let the server answer the requests for the pages 1, 2, ..., N with
    successful responses, the last of which reports [total_pages = N].
    Then, given fuel for N turns, a page-counter collection returns, and
    what it returns is the items, in page order, of the pages it read: the
    pages up to the first whose number reaches the total it reports, which
    is all N pages when every earlier page reports more pages than its own
    number. If instead the pages before some page go on and that page is
    answered with a non-success status, the collection returns the items of
    the pages before it. *)
Theorem page_collection_returns_pages {A} collect request
    (key : Body -> option (list A)) :
  page_collection serve collect request key ->
  (forall (rs : list Response) (final : Response) (w : World Srv) (fuel : nat),
     answers serve request 1 (Responded <$> (rs ++ [final])%list) w ->
     Forall (fun r => ok r = true) (rs ++ [final])%list ->
     total_pages (body final) = Some (Z.of_nat (List.length rs) + 1)%Z ->
     List.length rs < fuel ->
     (collect fuel w).1
     = Ok (items_of key (pages_read 1 (rs ++ [final])%list))
     /\ (continues 1 rs ->
         (collect fuel w).1 = Ok (items_of key (rs ++ [final])%list)))
  /\ (forall (rs : list Response) (bad : Response) (w : World Srv) (fuel : nat),
        answers serve request 1 (Responded <$> (rs ++ [bad])%list) w ->
        continues 1 rs ->
        ok bad = false ->
        List.length rs < fuel ->
        (collect fuel w).1 = Ok (items_of key rs)).
Proof.
  intros Hc. split.
  - intros rs final w fuel Hans Hok Htotal Hfuel.
    assert ((collect fuel w).1
            = Ok (items_of key (pages_read 1 (rs ++ [final])%list))) as E.
    { rewrite (page_collection_loop _ _ _ Hc).
      apply (page_loop_reads serve request key (rs ++ [final])%list 1%Z []);
        auto.
      - exists final. rewrite last_snoc. split; [reflexivity|].
        rewrite Htotal, length_app. simpl. lia.
      - rewrite length_app. simpl. lia. }
    split; [exact E|]. intros Hgo. rewrite E, pages_read_all; auto.
  - intros rs bad w fuel Hans Hgo Hbad Hfuel.
    rewrite (page_collection_loop _ _ _ Hc).
    apply (page_loop_partial serve request key rs bad 1%Z []); auto.
Qed.

(** The link-style loop, at whatever page it is and with whatever it has
    accumulated: a non-success status raises. *)
Lemma entries_loop_raises fuel url params acc (w : World Srv) r :
  url <> "" ->
  (serve (GetAffinity url params) (server w)).1 = Responded r ->
  ok r = false ->
  entries_loop serve AFFINITY_BASE_URL (S fuel) (Some url) params acc w
  = (Raise (HTTPError (status_code r)),
     after_call serve (GetAffinity url params) w).
Proof.
  intros Hurl Hr Hbad. cbn [entries_loop].
  apply String.eqb_neq in Hurl. rewrite Hurl.
  unfold bind. rewrite http_call, Hr.
  unfold raise_for_status. rewrite Hbad. reflexivity.
Qed.

(** C3, as amended: in a page-counter collection a non-success status on a
    page ends the collection, which returns the items of the pages before
    it; in the link-style collection behind [get_affinity_list_entries] a
    non-success status on a page raises [HTTPError], and nothing is
    returned. *)
Theorem collection_on_bad_status :
  (forall {A} collect request (key : Body -> option (list A))
          (rs : list Response) (bad : Response) (w : World Srv) (fuel : nat),
     page_collection serve collect request key ->
     answers serve request 1 (Responded <$> (rs ++ [bad])%list) w ->
     continues 1 rs ->
     ok bad = false ->
     List.length rs < fuel ->
     (collect fuel w).1 = Ok (items_of key rs))
  /\ (forall fuel url params acc (w : World Srv) bad,
        url <> "" ->
        (serve (GetAffinity url params) (server w)).1 = Responded bad ->
        ok bad = false ->
        (entries_loop serve AFFINITY_BASE_URL (S fuel) (Some url) params acc w).1
        = Raise (HTTPError (status_code bad))).
Proof.
  split.
  - intros A collect request key rs bad w fuel Hc Hans Hgo Hbad Hfuel.
    rewrite (page_collection_loop _ _ _ Hc).
    apply (page_loop_partial serve request key rs bad 1%Z []); auto.
  - intros fuel url params acc w bad Hurl Hr Hbad.
    rewrite (entries_loop_raises _ _ _ _ _ _ Hurl Hr Hbad). reflexivity.
Qed.

End PagingTheorems.

(* ===================================================================== *)
(** * The run: steps 1 to 4 *)
(* ===================================================================== *)

Section RunTheorems.

Context {Srv : Type}.
Variable serve : Request -> Srv -> Reply * Srv.
Variable urlparse : string -> option ParseResult.
Variable float_of_string : string -> option float.
Variable AFFINITY_BASE_URL : string.

Abbreviation reconcile' := (reconcile serve urlparse float_of_string AFFINITY_BASE_URL).
Abbreviation sync' :=
  (sync_runway_data serve urlparse float_of_string AFFINITY_BASE_URL).

Lemma after_calls_log qs w :
  calls (after_calls serve qs w) = (calls w ++ zip qs (replies_to serve qs w))%list.
Proof.
  revert w. induction qs as [|q qs IH]; intros w; simpl.
  - rewrite app_nil_r. reflexivity.
  - rewrite IH. simpl. rewrite <- app_assoc. reflexivity.
Qed.

Lemma replies_to_length qs w : List.length (replies_to serve qs w) = List.length qs.
Proof. revert w. induction qs; intros w; simpl; auto. Qed.

(** [update_affinity_field] makes one call and returns a boolean: a
    transport failure and a non-success status both give [False]. *)
Lemma update_affinity_field_call list_id m field_id (w : World Srv) :
  update_affinity_field serve AFFINITY_BASE_URL list_id (list_entry_id m)
    field_id (metric_value m) w
  = (Ok (succeeded (serve (patch_of AFFINITY_BASE_URL list_id field_id m) (server w)).1),
     after_call serve (patch_of AFFINITY_BASE_URL list_id field_id m) w).
Proof.
  unfold update_affinity_field, try_except, bind. rewrite http_call.
  fold (patch_of AFFINITY_BASE_URL list_id field_id m).
  destruct (serve (patch_of AFFINITY_BASE_URL list_id field_id m) (server w)).1 as [r|]; simpl;
    [|reflexivity].
  unfold raise_for_status. destruct (ok r); reflexivity.
Qed.

Lemma count_split {A} (f : A -> bool) (l : list A) :
  List.length (filter (fun x => f x = true) l)
  + List.length (filter (fun x => f x = false) l) = List.length l.
Proof.
  induction l as [|x l IH]; [reflexivity|].
  rewrite !filter_cons. destruct (f x) eqn:E; simpl.
  - destruct (decide (true = true)); [|congruence].
    destruct (decide (true = false)); [congruence|]. simpl. lia.
  - destruct (decide (false = true)); [congruence|].
    destruct (decide (false = false)); [|congruence]. simpl. lia.
Qed.

(** The update loop makes one call per match, in order, and counts the
    calls that succeeded and those that failed. *)
Lemma update_loop_run list_id field_id ms :
  forall success_count failed_count (w : World Srv),
    let qs := patch_of AFFINITY_BASE_URL list_id field_id <$> ms in
    let replies := replies_to serve qs w in
    for_each ms
      (fun '(success_count, failed_count) m =>
         let! success :=
           update_affinity_field serve AFFINITY_BASE_URL list_id
             (list_entry_id m) field_id (metric_value m) in
         if success then ret (S success_count, failed_count)
         else ret (success_count, S failed_count))
      (success_count, failed_count) w
    = (Ok (success_count
           + List.length (filter (fun r => succeeded r = true) replies),
           failed_count
           + List.length (filter (fun r => succeeded r = false) replies)),
       after_calls serve qs w).
Proof.
  induction ms as [|m ms IH]; intros s f w; simpl.
  - unfold ret. rewrite !Nat.add_0_r. reflexivity.
  - unfold bind at 1. unfold bind at 1.
    rewrite update_affinity_field_call. rewrite !filter_cons.
    destruct (succeeded _) eqn:E; unfold ret at 1; rewrite IH; simpl.
    + destruct (decide (true = true)); [|congruence].
      destruct (decide (true = false)); [congruence|].
      simpl. rewrite Nat.add_succ_r. reflexivity.
    + destruct (decide (false = true)); [congruence|].
      destruct (decide (false = false)); [|congruence].
      simpl. rewrite Nat.add_succ_r. reflexivity.
Qed.

(** C6: a dry run calls the update endpoint at no point, however it ends:
    its log holds no [PATCH], and step 4 makes no call at all, the world at
    the end being the one that steps 1 to 3 left. When steps 1 to 3 end
    with the matches [matches st], the dry run reaches its end and reports
    these matches, with one line of intended update (company, value) per
    match, in the same order. *)
Theorem dry_run_makes_no_update
    (fuel : nat) (list_id metric_name field_id : string) (w : World Srv) :
  logs (fun q => negb (is_patch q)) w
    (sync' fuel true list_id metric_name field_id w).2
  /\ (sync' fuel true list_id metric_name field_id w).2
     = (reconcile' fuel list_id metric_name w).2
  /\ (forall st w1,
        reconcile' fuel list_id metric_name w = (Ok (Some st), w1) ->
        sync' fuel true list_id metric_name field_id w
        = (Ok (Some {| matching := st;
                       step4 := WouldUpdate
                                  ((fun m => (company_name m, metric_value m))
                                     <$> matches st) |}),
           w1))
  /\ forall report w',
       sync' fuel true list_id metric_name field_id w = (Ok (Some report), w') ->
       step4 report
       = WouldUpdate ((fun m => (company_name m, metric_value m))
                        <$> matches (matching report)).
Proof.
  split; [|split; [|split]].
  - revert w. change (respects (logs (fun q => negb (is_patch q)))
                        (sync' fuel true list_id metric_name field_id)).
    unfold sync_runway_data. by_frame @respects_bind.
    + apply reconcile_logs. intros q ->. reflexivity.
    + intros [st|]; repeat frame_step.
  - unfold sync_runway_data, bind.
    destruct (reconcile' fuel list_id metric_name w) as [[[st|]|e|] w1];
      reflexivity.
  - intros st w1 Hrec. unfold sync_runway_data, bind. rewrite Hrec.
    reflexivity.
  - intros report w'. unfold sync_runway_data, bind.
    destruct (reconcile' fuel list_id metric_name w) as [[[st|]|e|] w1];
      simpl; unfold ret; intros [= <- <-]. reflexivity.
Qed.

(** C7: when steps 1 to 3 end with the matches [matches st], the run that
    is not a dry run reaches its end; it makes exactly the update calls of
    the matches, one per match and in order; each call of
    [update_affinity_field] returns a boolean, [False] for a transport
    failure and for a non-success status; the two counters add up to the
    number of matches, and [failed_count] is the number of update calls
    that failed. *)
Theorem updates_are_counted
    (fuel : nat) (list_id metric_name field_id : string)
    (w w1 : World Srv) (st : Matching) :
  reconcile' fuel list_id metric_name w = (Ok (Some st), w1) ->
  let qs := patch_of AFFINITY_BASE_URL list_id field_id <$> matches st in
  let replies := replies_to serve qs w1 in
  let success_count :=
    List.length (filter (fun r => succeeded r = true) replies) in
  let failed_count :=
    List.length (filter (fun r => succeeded r = false) replies) in
  sync' fuel false list_id metric_name field_id w
  = (Ok (Some {| matching := st;
                 step4 := Updated success_count failed_count |}),
     after_calls serve qs w1)
  /\ calls (after_calls serve qs w1) = (calls w1 ++ zip qs replies)%list
  /\ List.length replies = List.length (matches st)
  /\ success_count + failed_count = List.length (matches st)
  /\ (forall m (w2 : World Srv),
        update_affinity_field serve AFFINITY_BASE_URL list_id
          (list_entry_id m) field_id (metric_value m) w2
        = (Ok (succeeded (serve (patch_of AFFINITY_BASE_URL list_id field_id m) (server w2)).1),
           after_call serve (patch_of AFFINITY_BASE_URL list_id field_id m) w2)).
Proof.
  intros Hrec qs replies success_count failed_count.
  assert (List.length replies = List.length (matches st)) as Hlen.
  { unfold replies, qs. rewrite replies_to_length, length_fmap. reflexivity. }
  repeat split.
  - unfold sync_runway_data, bind at 1. rewrite Hrec.
    unfold apply_updates, update_matches, bind at 1. unfold bind at 1.
    rewrite update_loop_run. reflexivity.
  - apply after_calls_log.
  - exact Hlen.
  - unfold success_count, failed_count. rewrite count_split. exact Hlen.
  - intros m w2. apply update_affinity_field_call.
Qed.

(** C10: when the source metric map comes back empty, the run ends there,
    dry run or not: it reports nothing, the world is the one the fetch of
    the map left, and every call made is a request to Visible, so no list
    entry is fetched and no update is made. *)
Theorem empty_source_map_ends_run
    (fuel : nat) (dry_run : bool) (list_id metric_name field_id : string)
    (w w1 : World Srv) (visible : gmap string float) :
  fetch_visible_metric_data serve urlparse float_of_string fuel metric_name w
  = (Ok visible, w1) ->
  visible = ∅ ->
  sync' fuel dry_run list_id metric_name field_id w = (Ok None, w1)
  /\ logs is_visible_request w w1.
Proof.
  intros Hfetch ->. split.
  - unfold sync_runway_data, reconcile, bind. rewrite Hfetch.
    rewrite bool_decide_eq_true_2 by reflexivity. reflexivity.
  - pose proof (fetch_visible_metric_data_logs serve urlparse float_of_string
                  is_visible_request fuel metric_name (fun q H => H) w) as H.
    rewrite Hfetch in H. exact H.
Qed.

End RunTheorems.

(* ===================================================================== *)
(** * What one company does to the source map *)
(* ===================================================================== *)

Section FetchFacts.

Context {Srv : Type}.
Variable serve : Request -> Srv -> Reply * Srv.
Variable urlparse : string -> option ParseResult.
Variable float_of_string : string -> option float.

(** The value that [get_latest_data_point] selects is never the string
    "None": it is [None] when no data point qualifies, and otherwise the
    value of a data point that passed the test of line 139. *)
Lemma latest_step_value latest dp :
  (latest_value latest = JNull \/ is_none_value (latest_value latest) = false) ->
  latest_value (latest_step latest dp) = JNull
  \/ is_none_value (latest_value (latest_step latest dp)) = false.
Proof.
  intros H. unfold latest_step. destruct (dp_date dp) as [date|]; [|exact H].
  destruct (is_none_value (dp_value dp)) eqn:E; simpl; [exact H|].
  destruct (_ && _); [right; exact E|exact H].
Qed.

(** X2: once a company has a website, a metric of the requested name and
    a latest data point, the turn of the loop for it ends in one of three
    ways: the map is left alone (no usable value, or a coercion that raises
    [ValueError] or [TypeError]); the map gets the value at the normalized
    domain; or the coercion raises something else, and so does the turn. *)
Lemma fetch_company_outcome fuel metric_name wid domain_to_value company
    (w w1 w2 w3 : World Srv) website nd ms metric latest :
  get_company_website serve (profile_id company) wid w = (Ok (Some website), w1) ->
  website <> "" ->
  website <> "N/A" ->
  normalize_domain urlparse website = Ok nd ->
  nd <> "" ->
  get_visible_company_metrics serve fuel (profile_id company) w1 = (Ok ms, w2) ->
  List.find
    (fun m => String.eqb
       (PyStr.lower (PyStr.strip (default "" (m_name m))))
       (PyStr.strip (PyStr.lower metric_name))) ms = Some metric ->
  get_latest_data_point serve fuel (m_id metric) w2 = (Ok latest, w3) ->
  fetch_company serve urlparse float_of_string fuel metric_name wid
    domain_to_value company w
  = (if is_none_value (latest_value latest) then Ok domain_to_value
     else match py_float float_of_string (latest_value latest) with
          | Ok value => Ok (<[nd := value]> domain_to_value)
          | Raise ValueError | Raise TypeError => Ok domain_to_value
          | Raise e => Raise e
          | OutOfFuel => OutOfFuel
          end, w3).
Proof.
  intros Hsite Hne Hna Hnd Hnd' Hms Hfind Hlatest.
  unfold fetch_company. unfold bind at 1. rewrite Hsite.
  apply String.eqb_neq in Hne, Hna, Hnd'. rewrite Hne, Hna. cbn [orb].
  unfold bind at 1. unfold lift at 1. rewrite Hnd, Hnd'.
  unfold bind at 1. rewrite Hms, Hfind.
  unfold bind at 1. rewrite Hlatest.
  destruct (is_none_value (latest_value latest)); [reflexivity|].
  cbn [negb]. unfold try_except, bind, lift, ret.
  destruct (py_float float_of_string (latest_value latest)) as [v|[]|];
    reflexivity.
Qed.

End FetchFacts.

(** C8 at a failing input. The first company's latest data point holds the
    JSON integer 10^400; [float] raises [OverflowError] for it, which
    [except (ValueError, TypeError)] does not catch: the fetch of the map
    raises, whatever [urlparse] and the parser of [float] are, and the
    second company, whose data is fine, is never looked at. *)
Theorem fetch_visible_metric_data_overflow
    (urlparse : string -> option ParseResult)
    (float_of_string : string -> option float) :
  (fetch_visible_metric_data (Scenario.serve Scenario.HugeValue)
     urlparse float_of_string 2 "Runway" Scenario.start).1
  = Raise OverflowError.
Proof. vm_compute. reflexivity. Qed.

(* ===================================================================== *)
(** * The theorems on the worked scenario *)
(* ===================================================================== *)

Module Runs.
Import Scenario.

(** "https://www.Example.com/" normalizes to "example.com", and
    normalizing that again changes nothing. *)
Lemma normalize_domain_idempotent_witness :
  normalize_domain urlparse "https://www.Example.com/" = Ok "example.com"
  /\ normalize_domain urlparse "example.com" = Ok "example.com".
Proof.
  split; [reflexivity|].
  apply (normalize_domain_idempotent_when_clean urlparse
           "https://www.Example.com/" "example.com"); reflexivity.
Defined.

(** "example.com//" loses both of its slashes. *)
Lemma normalize_domain_steps_witness :
  normalize_domain urlparse "example.com//" = Ok "example.com"
  /\ PyStr.ends_with PyStr.is_slash "example.com" = false.
Proof.
  apply (normalize_domain_steps urlparse "example.com//" "example.com//");
    [discriminate|discriminate|reflexivity].
Defined.

(** The companies come on two pages, both are read. *)
Lemma page_collection_returns_pages_witness :
  (get_visible_portfolio_companies (serve NoFault) 2 start).1
  = Ok [alpha; beta].
Proof.
  apply (proj1 (page_collection_returns_pages (serve NoFault) _ _ _
                  (companies_collection (serve NoFault)))
           [companies_page_1] companies_page_2 start 2).
  - vm_compute. repeat split.
  - repeat constructor.
  - reflexivity.
  - simpl. lia.
  - simpl. repeat split; reflexivity || lia.
Defined.

(** Page 2 of the companies is answered 500: the company of page 1 is
    returned. *)
Lemma collection_on_bad_status_witness :
  (get_visible_portfolio_companies (serve CompaniesPage2Down) 2 start).1
  = Ok [alpha].
Proof.
  apply (proj1 (collection_on_bad_status (serve CompaniesPage2Down) base_url)
           _ _ GetCompanyProfiles portfolio_company_profiles
           [companies_page_1] page_down start 2).
  - constructor.
  - vm_compute. repeat split.
  - simpl. repeat split; reflexivity || lia.
  - reflexivity.
  - simpl. lia.
Defined.

(** C3, as stated, fails for the link-style collection: page 2 of the list
    entries is answered 500 after page 1 gave two entries, and
    [get_affinity_list_entries] raises instead of returning the two. *)
Lemma get_affinity_list_entries_raises_on_bad_status :
  (get_affinity_list_entries (serve EntriesPage2Down) base_url 5 "L" start).1
  = Raise (HTTPError 500)
  /\ (get_affinity_list_entries (serve EntriesPage2Down) base_url 5 "L" start).1
     <> Ok [record "1" "first" ["a"]; record "2" "second" ["a"; "b"]].
Proof. split; [vm_compute; reflexivity|vm_compute; discriminate]. Qed.

(** Steps 1 to 3 over the scenario end with two matches; the dry run
    reports them, with a line for each, in the world they left. *)
Lemma dry_run_makes_no_update_witness :
  exists st w1,
    reconcile (serve NoFault) urlparse float_of_string base_url
      5 "L" "Runway" start
    = (Ok (Some st), w1)
    /\ List.length (matches st) = 2
    /\ sync_runway_data (serve NoFault) urlparse float_of_string
         base_url 5 true "L" "Runway" "f" start
       = (Ok (Some {| matching := st;
                      step4 := WouldUpdate
                                 ((fun m => (company_name m, metric_value m))
                                    <$> matches st) |}),
          w1).
Proof.
  eexists _, _. split; [vm_compute; reflexivity|].
  split; [reflexivity|].
  apply (proj1 (proj2 (proj2 (dry_run_makes_no_update (serve NoFault) urlparse
                                float_of_string base_url 5 "L" "Runway" "f"
                                start)))).
  vm_compute. reflexivity.
Defined.

(** A run over the scenario that is not a dry run: two matches, the update
    of entry 1 succeeds and the update of entry 2 is answered 500. *)
Lemma updates_are_counted_witness :
  exists report w2,
    sync_runway_data (serve NoFault) urlparse float_of_string
      base_url 5 false "L" "Runway" "f" start
    = (Ok (Some report), w2)
    /\ step4 report = Updated 1 1.
Proof.
  eexists _, _. split.
  - unshelve eapply
      (proj1 (updates_are_counted (serve NoFault) urlparse
                float_of_string base_url 5 "L" "Runway" "f" start _ _ _));
      [shelve|shelve|vm_compute; reflexivity].
  - vm_compute. reflexivity.
Defined.

(** Visible lists no company: the run ends after two requests to Visible. *)
Lemma empty_source_map_ends_run_witness :
  exists w1,
    sync_runway_data (serve NoCompanies) urlparse float_of_string
      base_url 5 false "L" "Runway" "f" start
    = (Ok None, w1)
    /\ logs is_visible_request start w1.
Proof.
  eexists.
  eapply (empty_source_map_ends_run (serve NoCompanies) urlparse
            float_of_string base_url 5 false "L" "Runway" "f" start _ _).
  - vm_compute. reflexivity.
  - reflexivity.
Defined.

(** The first company of the scenario: website "a", metric "Runway", latest
    value 1; its turn stores 1.0 at "a". *)
Lemma fetch_company_outcome_witness :
  (fetch_company (serve NoFault) urlparse float_of_string 2 "Runway" "w"
     ∅ alpha start).1
  = Ok (<["a" := num 1]> ∅).
Proof.
  erewrite fetch_company_outcome; cycle 1.
  - vm_compute. reflexivity.
  - discriminate.
  - discriminate.
  - reflexivity.
  - discriminate.
  - vm_compute. reflexivity.
  - vm_compute. reflexivity.
  - vm_compute. reflexivity.
  - vm_compute. reflexivity.
Defined.

End Runs.

(* ===================================================================== *)
(** * More on [normalize_domain] *)
(* ===================================================================== *)

Section NormalizeMore.
Import PyStr PyStrFacts.

Variable urlparse : string -> option ParseResult.

Lemma lower_empty s : lower s = "" -> s = "".
Proof. destruct s; [reflexivity|discriminate]. Qed.

(** X3: whatever [normalize_domain] returns is in normal form: lower-casing
    leaves it alone, it does not start with whitespace, and it does not end
    in a slash. *)
Theorem normalize_domain_normal_form (url d : string) :
  normalize_domain urlparse url = Ok d ->
  lower d = d
  /\ starts_with is_space d = false
  /\ ends_with is_slash d = false.
Proof.
  intros H. destruct (normalize_domain_shape _ _ _ H) as [->|[host ->]].
  - repeat split.
  - split; [apply lower_of_fixed, cleaned_lower|].
    split; [apply cleaned_starts|apply cleaned_ends].
Qed.

(** X4: [normalize_domain] raises in one case only: the input is neither
    empty nor the sentinel, it holds a scheme separator, and [urlparse]
    raises on it; what is raised is that [ValueError]. In particular an
    input without "://" always gives a result. *)
Theorem normalize_domain_raises_iff (url : string) :
  (normalize_domain urlparse url = Raise ValueError
   <-> url <> "" /\ url <> "N/A"
       /\ contains "://" url = true /\ urlparse url = None)
  /\ (forall e, normalize_domain urlparse url = Raise e -> e = ValueError)
  /\ normalize_domain urlparse url <> OutOfFuel
  /\ (contains "://" url = false ->
      exists d, normalize_domain urlparse url = Ok d).
Proof.
  unfold normalize_domain.
  destruct (String.eqb_spec url "") as [->|Hne]; cbn [orb].
  { repeat split; try discriminate; eauto.
    intros (H & _). congruence. }
  destruct (String.eqb_spec url "N/A") as [->|Hna].
  { repeat split; try discriminate; eauto.
    intros (_ & H & _). congruence. }
  destruct (contains "://" url).
  - destruct (urlparse url) as [parsed|].
    + repeat split; try discriminate. intros (_ & _ & _ & H). discriminate H.
    + repeat split; auto; try discriminate. intros e [= <-]. reflexivity.
  - repeat split; try discriminate; eauto.
    intros (_ & _ & H & _). discriminate H.
Qed.

(** X5: without a scheme separator, and the sentinel apart, normalization
    does not see the case of letters: two inputs with the same lower-case
    form have the same normal form. *)
Theorem normalize_domain_ignores_case (a b : string) :
  lower a = lower b ->
  a <> "N/A" -> b <> "N/A" ->
  contains "://" a = false -> contains "://" b = false ->
  normalize_domain urlparse a = normalize_domain urlparse b.
Proof.
  intros Hlow Ha Hb Hsa Hsb. unfold normalize_domain.
  apply String.eqb_neq in Ha, Hb. rewrite Ha, Hb, Hsa, Hsb, !orb_false_r.
  destruct (String.eqb_spec a "") as [->|Hane].
  - symmetry in Hlow. apply lower_empty in Hlow. subst b. reflexivity.
  - destruct (String.eqb_spec b "") as [->|Hbne].
    + apply lower_empty in Hlow. contradiction.
    + rewrite Hlow. reflexivity.
Qed.

End NormalizeMore.

(* ===================================================================== *)
(** * More on the matching step *)
(* ===================================================================== *)

Section MatchingMore.

Variable urlparse : string -> option ParseResult.

Lemma normalize_domain_fuel url : normalize_domain urlparse url <> OutOfFuel.
Proof.
  unfold normalize_domain. destruct (_ || _); [discriminate|].
  destruct (PyStr.contains "://" url); [|discriminate].
  destruct (urlparse url); discriminate.
Qed.

(** The three ways in which the scan of a record's domains ends: no domain
    is a key; a domain is a key and all before it are not; the
    normalization of a domain raises and all before it are no keys. *)
Lemma scan_domains_cases name id domains st :
  (scan_domains urlparse name id domains st = (Ok false, st)
   /\ Forall (no_key urlparse (visible_data st)) domains)
  \/ (exists before d after n v,
        domains = (before ++ d :: after)%list
        /\ Forall (no_key urlparse (visible_data st)) before
        /\ normalize_domain urlparse d = Ok n
        /\ visible_data st !! n = Some v
        /\ scan_domains urlparse name id domains st
           = (Ok true,
              with_match st {| company_name := name; list_entry_id := id;
                               domain := n; metric_value := v |}))
  \/ (exists before d after e,
        domains = (before ++ d :: after)%list
        /\ Forall (no_key urlparse (visible_data st)) before
        /\ normalize_domain urlparse d = Raise e
        /\ scan_domains urlparse name id domains st = (Raise e, st)).
Proof.
  induction domains as [|d rest IH].
  - left. split; [reflexivity|constructor].
  - cbn [scan_domains]. unfold bind, lift, get_state, put_state, ret.
    destruct (normalize_domain urlparse d) as [n|e|] eqn:Hd.
    + destruct (visible_data st !! n) as [v|] eqn:Hv.
      * right. left. exists [], d, rest, n, v. repeat split; auto.
      * destruct IH as [[IH1 IH2]|[(b & d' & a & n' & v' & -> & Hb & Hn & Hv' & IH)
                                  |(b & d' & a & e & -> & Hb & He & IH)]].
        -- left. split; [exact IH1|]. constructor; [exists n; auto|exact IH2].
        -- right. left. exists (d :: b), d', a, n', v'.
           repeat split; auto. constructor; [exists n; auto|exact Hb].
        -- right. right. exists (d :: b), d', a, e.
           repeat split; auto. constructor; [exists n; auto|exact Hb].
    + right. right. exists [], d, rest, e. repeat split; auto.
    + destruct (normalize_domain_fuel d Hd).
Qed.

(** [match_entry], with its binds spelled out. *)
Lemma match_entry_unfold entry st :
  match_entry urlparse entry st
  = match scan_domains urlparse (default "Unknown" (entity_name entry))
            (entry_id entry) (domains_of entry) st with
    | (Ok matched, st1) =>
        if negb matched && negb (bool_decide (domains_of entry = []))
        then (Ok tt, with_unmatched st1
                       (default "Unknown" (entity_name entry),
                        domains_of entry))
        else (Ok tt, st1)
    | (Raise e, st1) => (Raise e, st1)
    | (OutOfFuel, st1) => (OutOfFuel, st1)
    end.
Proof.
  unfold match_entry, domains_of, bind.
  destruct (scan_domains _ _ _ _ st) as [[matched|e|] st1]; try reflexivity.
  destruct (negb matched && _); reflexivity.
Qed.

(** What one record does to the state, by the way the turn ends. *)
Lemma match_entry_cases entry st :
  let name := default "Unknown" (entity_name entry) in
  (domains_of entry = [] /\ match_entry urlparse entry st = (Ok tt, st))
  \/ (domains_of entry <> []
      /\ Forall (no_key urlparse (visible_data st)) (domains_of entry)
      /\ match_entry urlparse entry st
         = (Ok tt, with_unmatched st (name, domains_of entry)))
  \/ (exists d n v,
        d ∈ domains_of entry
        /\ normalize_domain urlparse d = Ok n
        /\ visible_data st !! n = Some v
        /\ match_entry urlparse entry st
           = (Ok tt,
              with_match st {| company_name := name;
                               list_entry_id := entry_id entry;
                               domain := n; metric_value := v |}))
  \/ (exists d e,
        d ∈ domains_of entry
        /\ normalize_domain urlparse d = Raise e
        /\ match_entry urlparse entry st = (Raise e, st)).
Proof.
  intros name. rewrite match_entry_unfold. fold name.
  destruct (scan_domains_cases name (entry_id entry) (domains_of entry) st)
    as [[Hs Hk]|[(b & d & a & n & v & Hd & Hb & Hn & Hv & Hs)
                |(b & d & a & e & Hd & Hb & He & Hs)]];
    rewrite Hs; cbn [negb andb].
  - destruct (domains_of entry) as [|d0 ds] eqn:E.
    + left. split; reflexivity.
    + right. left. rewrite bool_decide_eq_false_2 by discriminate.
      split; [discriminate|]. split; [exact Hk|reflexivity].
  - right. right. left. exists d, n, v. rewrite Hd.
    split; [apply elem_of_app; right; left|]. auto.
  - right. right. right. exists d, e. rewrite Hd.
    split; [apply elem_of_app; right; left|]. auto.
Qed.

Lemma match_companies_cons entry entries st :
  match_companies urlparse (entry :: entries) st
  = match match_entry urlparse entry st with
    | (Ok _, st1) => match_companies urlparse entries st1
    | (Raise e, st1) => (Raise e, st1)
    | (OutOfFuel, st1) => (OutOfFuel, st1)
    end.
Proof.
  unfold match_companies. cbn [for_each]. unfold bind.
  destruct (match_entry urlparse entry st) as [[[]|e|] st1]; reflexivity.
Qed.

(** X6: when the matching step returns, every record that has a domain is
    counted once, as matched or as unmatched, and the records without
    domains are not counted: the two lists grow, together, by the number
    of records with a domain. *)
Theorem match_companies_counts_records
    (entries : list Entry) (st st' : Matching) :
  match_companies urlparse entries st = (Ok tt, st') ->
  List.length (matches st') + List.length (unmatched_affinity st')
  = List.length (matches st) + List.length (unmatched_affinity st)
    + List.length (filter (fun e => domains_of e <> []) entries).
Proof.
  revert st. induction entries as [|entry entries IH]; intros st.
  - intros [= <-]. simpl. lia.
  - rewrite match_companies_cons, filter_cons.
    destruct (match_entry_cases entry st)
      as [[Hd H]|[(Hd & _ & H)|[(d & n & v & Hd & _ & _ & H)
                               |(d & e & _ & _ & H)]]];
      rewrite H; [| | |discriminate]; intros Hrest;
      apply IH in Hrest; rewrite Hrest; simpl.
    + rewrite decide_False by (intros Hne; apply Hne, Hd). lia.
    + rewrite decide_True by exact Hd. rewrite !length_app. simpl. lia.
    + rewrite decide_True
        by (intros E; rewrite E in Hd; apply elem_of_nil in Hd; exact Hd).
      rewrite !length_app. simpl. lia.
Qed.

Lemma sound_for_more visible es es' st :
  sound_for urlparse visible es st -> sound_for urlparse visible (es ++ es') st.
Proof.
  intros [Hm Hu]. split.
  - eapply Forall_impl; [exact Hm|].
    intros m (Hv & e & d & He & H). split; [exact Hv|].
    exists e, d. split; [apply elem_of_app; auto|exact H].
  - eapply Forall_impl; [exact Hu|].
    intros u (e & He & H). exists e. split; [apply elem_of_app; auto|exact H].
Qed.

Lemma match_companies_sound visible entries :
  forall es st,
    visible_data st = visible ->
    sound_for urlparse visible es st ->
    sound_for urlparse visible (es ++ entries)
      (match_companies urlparse entries st).2.
Proof.
  induction entries as [|entry entries IH]; intros es st Hvis Hs.
  - apply sound_for_more, Hs.
  - rewrite match_companies_cons.
    assert (entry ∈ (es ++ [entry])%list) as Hin
      by (apply elem_of_app; right; left).
    replace (es ++ entry :: entries)%list
      with ((es ++ [entry]) ++ entries)%list
      by (rewrite <- app_assoc; reflexivity).
    destruct Hs as [Hm Hu].
    destruct (match_entry_cases entry st)
      as [[Hd H]|[(Hd & Hk & H)|[(d & n & v & Hd & Hn & Hv & H)
                                |(d & e & _ & _ & H)]]];
      rewrite H.
    + apply IH; [exact Hvis|]. apply sound_for_more. split; assumption.
    + apply IH; [exact Hvis|].
      destruct (sound_for_more visible es [entry] st (conj Hm Hu)) as [Hm' Hu'].
      split; [exact Hm'|]. simpl. apply Forall_app. split; [exact Hu'|].
      constructor; [|constructor]. exists entry.
      rewrite <- Hvis. auto.
    + apply IH; [exact Hvis|].
      destruct (sound_for_more visible es [entry] st (conj Hm Hu)) as [Hm' Hu'].
      split; [|exact Hu']. simpl. apply Forall_app. split; [exact Hm'|].
      constructor; [|constructor]. simpl. rewrite <- Hvis.
      split; [exact Hv|]. exists entry, d. repeat split; auto.
    + simpl. apply sound_for_more, sound_for_more. split; assumption.
Qed.

(** X7: however the matching step ends, what it has classified is sound:
    every match carries the normal form of one of the domains of its
    record, and that normal form is a key of the source map with the value
    the match carries; every record listed as unmatched has a domain, and
    none of its domains normalizes to a key. *)
Theorem match_companies_classifies_soundly
    (visible : gmap string float) (entries : list Entry) :
  sound_for urlparse visible entries
    (match_companies urlparse entries (start_matching visible)).2.
Proof.
  apply (match_companies_sound visible entries [] (start_matching visible)).
  - reflexivity.
  - split; constructor.
Qed.

Lemma normalize_domain_without_scheme d :
  PyStr.contains "://" d = false ->
  exists n, normalize_domain urlparse d = Ok n.
Proof.
  intros H. unfold normalize_domain. rewrite H.
  destruct (_ || _); eauto.
Qed.

(** X8: the matching step raises only through [urlparse]: when no domain
    of the records holds a scheme separator, it returns. *)
Theorem match_companies_returns_without_scheme
    (entries : list Entry) (st : Matching) :
  Forall (fun e => Forall (fun d => PyStr.contains "://" d = false)
                          (domains_of e)) entries ->
  (match_companies urlparse entries st).1 = Ok tt.
Proof.
  intros H. revert st. induction H as [|entry entries He _ IH]; intros st.
  - reflexivity.
  - rewrite match_companies_cons.
    destruct (match_entry_cases entry st)
      as [[_ E]|[(_ & _ & E)|[(d & n & v & _ & _ & _ & E)
                             |(d & e & Hd & Hr & _)]]];
      try (rewrite E; apply IH).
    rewrite Forall_forall in He.
    destruct (normalize_domain_without_scheme d (He d Hd)) as [n Hn].
    congruence.
Qed.

(** One record, by the way its turn ends, with the first key spelled
    out. *)
Lemma match_entry_exact entry st :
  let name := default "Unknown" (entity_name entry) in
  (domains_of entry = [] /\ match_entry urlparse entry st = (Ok tt, st))
  \/ (domains_of entry <> []
      /\ Forall (no_key urlparse (visible_data st)) (domains_of entry)
      /\ match_entry urlparse entry st
         = (Ok tt, with_unmatched st (name, domains_of entry)))
  \/ (exists n v,
        first_key urlparse (visible_data st) (domains_of entry) n v
        /\ match_entry urlparse entry st
           = (Ok tt,
              with_match st {| company_name := name;
                               list_entry_id := entry_id entry;
                               domain := n; metric_value := v |}))
  \/ (exists d e,
        d ∈ domains_of entry
        /\ normalize_domain urlparse d = Raise e
        /\ match_entry urlparse entry st = (Raise e, st)).
Proof.
  intros name. rewrite match_entry_unfold. fold name.
  destruct (scan_domains_cases name (entry_id entry) (domains_of entry) st)
    as [[Hs Hk]|[(b & d & a & n & v & Hd & Hb & Hn & Hv & Hs)
                |(b & d & a & e & Hd & Hb & He & Hs)]];
    rewrite Hs; cbn [negb andb].
  - destruct (domains_of entry) as [|d0 ds] eqn:E.
    + left. split; reflexivity.
    + right. left. rewrite bool_decide_eq_false_2 by discriminate.
      split; [discriminate|]. split; [exact Hk|reflexivity].
  - right. right. left. exists n, v. split; [|reflexivity].
    exists b, d, a. auto.
  - right. right. right. exists d, e. rewrite Hd.
    split; [apply elem_of_app; right; left|]. auto.
Qed.

(** A list of domains has one first key at most. *)
Lemma first_key_unique visible domains n v n' v' :
  first_key urlparse visible domains n v ->
  first_key urlparse visible domains n' v' ->
  n = n' /\ v = v'.
Proof.
  intros (b & d & a & -> & Hb & Hn & Hv) (b' & d' & a' & E & Hb' & Hn' & Hv').
  revert b' E Hb'. induction Hb as [|x b (nx & Hx & Hxv) _ IH];
    intros [|x' b'] E Hb'; simpl in E; injection E as E1 E2; subst.
  - split; congruence.
  - apply Forall_cons in Hb' as [(n0 & Hn0 & Hv0) _]. congruence.
  - congruence.
  - apply Forall_cons in Hb' as [_ Hb']. apply (IH b'); auto.
Qed.

Lemma first_key_not_all visible domains n v :
  first_key urlparse visible domains n v ->
  Forall (no_key urlparse visible) domains -> False.
Proof.
  intros (b & d & a & -> & _ & Hn & Hv) Hall.
  apply Forall_app in Hall as [_ Hall].
  apply Forall_cons in Hall as [(n0 & Hn0 & Hv0) _]. congruence.
Qed.

Lemma first_key_domains visible domains n v :
  first_key urlparse visible domains n v -> domains <> [].
Proof. intros (b & d & a & -> & _) E. destruct b; discriminate E. Qed.

(** The records determine the join. *)
Lemma classified_unique visible entries ms us :
  classified urlparse visible entries ms us ->
  forall ms' us',
    classified urlparse visible entries ms' us' -> ms' = ms /\ us' = us.
Proof.
  induction 1 as [|entry entries ms us Hd _ IH
                  |entry entries ms us n v Hk _ IH
                  |entry entries ms us Hd Hall _ IH];
    intros ms' us' H'; inversion H'; subst.
  - auto.
  - auto.
  - exfalso. eapply first_key_domains; eauto.
  - congruence.
  - exfalso. eapply first_key_domains; eauto.
  - match goal with
    | Hk' : first_key _ _ _ _ _ |- _ =>
        destruct (first_key_unique _ _ _ _ _ _ Hk Hk') as [<- <-]
    end.
    match goal with
    | Hc : classified _ _ entries _ _ |- _ => destruct (IH _ _ Hc) as [-> ->]
    end. auto.
  - exfalso. eapply first_key_not_all; eauto.
  - congruence.
  - exfalso. eapply first_key_not_all; eauto.
  - match goal with
    | Hc : classified _ _ entries _ _ |- _ => destruct (IH _ _ Hc) as [-> ->]
    end. auto.
Qed.

(** When the matching step returns, what it appended to the two lists is
    the join of the records against the source map, and the matched keys
    have left [unmatched_visible]. *)
Lemma match_companies_exact entries :
  forall st st',
    match_companies urlparse entries st = (Ok tt, st') ->
    exists ms us,
      classified urlparse (visible_data st) entries ms us
      /\ matches st' = (matches st ++ ms)%list
      /\ unmatched_affinity st' = (unmatched_affinity st ++ us)%list
      /\ unmatched_visible st'
         = unmatched_visible st ∖ list_to_set (domain <$> ms).
Proof.
  induction entries as [|entry entries IH]; intros st st'.
  - intros [= <-]. exists [], []. rewrite !app_nil_r.
    split; [constructor|]. repeat split. set_solver.
  - rewrite match_companies_cons.
    destruct (match_entry_exact entry st)
      as [[Hd H]|[(Hd & Hall & H)|[(n & v & Hk & H)|(d & e & _ & _ & H)]]];
      rewrite H; [| | |discriminate]; intros Hrest;
      apply IH in Hrest as (ms & us & Hc & Hm & Hu & Hx).
    + exists ms, us. split; [apply classified_no_domain; assumption|]. auto.
    + exists ms, ((default "Unknown" (entity_name entry), domains_of entry)
                 :: us).
      cbn [with_unmatched visible_data matches
                                 unmatched_affinity unmatched_visible] in *.
      split; [apply classified_unmatched; assumption|].
      rewrite Hm, Hu, Hx, <- app_assoc. auto.
    + exists ({| company_name := default "Unknown" (entity_name entry);
                 list_entry_id := entry_id entry;
                 domain := n; metric_value := v |} :: ms), us.
      cbn [with_match visible_data matches
                                 unmatched_affinity unmatched_visible] in *.
      split; [apply classified_match; assumption|].
      rewrite Hm, Hu, Hx, <- app_assoc. repeat split.
      cbn [fmap list_fmap domain list_to_set foldr]. set_solver.
Qed.

(** The step returns when no domain of the records holds a scheme
    separator: only [urlparse] can make it raise. *)
Lemma match_companies_returns entries :
  Forall (fun e => Forall (fun d => PyStr.contains "://" d = false)
                          (domains_of e)) entries ->
  forall st, exists st', match_companies urlparse entries st = (Ok tt, st').
Proof.
  induction 1 as [|entry entries He _ IH]; intros st.
  - exists st. reflexivity.
  - rewrite match_companies_cons.
    destruct (match_entry_exact entry st)
      as [[_ E]|[(_ & _ & E)|[(n & v & _ & E)|(d & e & Hd & Hr & _)]]];
      try (rewrite E; apply IH).
    rewrite Forall_forall in He.
    destruct (normalize_domain_without_scheme d (He d Hd)) as [n Hn].
    congruence.
Qed.

(** C1, as amended: the join is one match at most per record, not one per
    source key. (1) The matching step returns whenever no domain of the
    records holds a scheme separator. (2) When it returns, its result is
    exactly this join: the records are taken in order; a record without
    domains gives nothing; a record gives one match, on the first of its
    domains (in listed order) whose normal form is a key of the source map,
    whether or not an earlier record matched that key; a record with
    domains none of which normalizes to a key is listed as unmatched; the
    unmatched source keys are the keys that no match carries. No other pair
    of lists is such a join of the records. (3) However the step ends, each
    record has given at most one element to [matches] or to
    [unmatched_affinity], in record order, and every match carries a key
    with its value. (4) In one record, the first domain that is a key wins,
    also when an earlier record matched it. (5) On the source map a:1, b:2
    and the records [a], [a, b], [c], the result is two matches, both on
    "a", one unmatched source key, "b", and one unmatched record. *)
Theorem match_companies_one_match_per_record :
  (forall (visible : gmap string float) (entries : list Entry),
     Forall (fun e => Forall (fun d => PyStr.contains "://" d = false)
                             (domains_of e)) entries ->
     exists st,
       match_companies urlparse entries (start_matching visible) = (Ok tt, st))
  /\ (forall (visible : gmap string float) (entries : list Entry)
          (st : Matching),
     match_companies urlparse entries (start_matching visible) = (Ok tt, st) ->
     classified urlparse visible entries (matches st) (unmatched_affinity st)
     /\ unmatched_visible st
        = dom visible ∖ list_to_set (domain <$> matches st)
     /\ forall ms us,
          classified urlparse visible entries ms us ->
          ms = matches st /\ us = unmatched_affinity st)
  /\ (forall (visible : gmap string float) (entries : list Entry),
        let st :=
          (match_companies urlparse entries (start_matching visible)).2 in
        (exists claimed, claimed `sublist_of` entries
                         /\ Forall2 claimed_by claimed (matches st))
        /\ Forall (fun m => visible !! domain m = Some (metric_value m))
                  (matches st)
        /\ unmatched_visible st
           = dom visible ∖ list_to_set (domain <$> matches st)
        /\ List.length (matches st) + List.length (unmatched_affinity st)
           <= List.length entries)
  /\ (forall name id before d after st n v,
        Forall (fun d' => exists n', normalize_domain urlparse d' = Ok n'
                                     /\ visible_data st !! n' = None) before ->
        normalize_domain urlparse d = Ok n ->
        visible_data st !! n = Some v ->
        scan_domains urlparse name id (before ++ d :: after) st
        = (Ok true, with_match st {| company_name := name;
                                     list_entry_id := id;
                                     domain := n; metric_value := v |}))
  /\ (let r := match_companies urlparse Scenario.records
                 (start_matching Scenario.source_map) in
      r.1 = Ok tt
      /\ matches r.2
         = [ {| company_name := "first"; list_entry_id := Some "1";
                domain := "a"; metric_value := Scenario.num 1 |};
             {| company_name := "second"; list_entry_id := Some "2";
                domain := "a"; metric_value := Scenario.num 1 |} ]
      /\ unmatched_visible r.2 = {["b"]}
      /\ unmatched_affinity r.2 = [("third", ["c"])]).
Proof.
  split; [|split; [|split; [|split]]].
  - intros visible entries Hall. apply match_companies_returns, Hall.
  - intros visible entries st Hrun.
    destruct (match_companies_exact entries _ _ Hrun)
      as (ms & us & Hc & Hm & Hu & Hx).
    cbn [start_matching visible_data matches unmatched_affinity
         unmatched_visible] in *.
    rewrite app_nil_l in Hm, Hu. subst ms us.
    split; [exact Hc|]. split; [exact Hx|].
    intros ms us. apply (classified_unique _ _ _ _ Hc).
  - intros visible entries st.
    destruct (match_companies_effect urlparse entries (start_matching visible))
      as (ms & us & [V M U X F C N]).
    fold st in V, M, U, X, F, C, N. simpl in *.
    rewrite M. rewrite U in *. rewrite X. simpl. auto.
  - apply scan_domains_first.
  - vm_compute. repeat split.
Qed.

End MatchingMore.

(* ===================================================================== *)
(** * More on the collections *)
(* ===================================================================== *)

Section CollectionsMore.

Context {Srv : Type}.
Variable serve : Request -> Srv -> Reply * Srv.
Variable AFFINITY_BASE_URL : string.

(** The calls of the page-counter loop are the requests for consecutive
    pages, from the page it starts at. *)
Lemma page_loop_calls {A} request (key : Body -> option (list A)) fuel :
  forall page acc (w : World Srv),
  exists replies,
    List.length replies <= fuel
    /\ calls (page_loop serve request key fuel page acc w).2
       = (calls w
          ++ zip (request <$> seqZ page (Z.of_nat (List.length replies)))
                 replies)%list.
Proof.
  induction fuel as [|fuel IH]; intros page acc w.
  - exists []. split; [reflexivity|]. simpl. rewrite app_nil_r. reflexivity.
  - cbn [page_loop]. unfold bind. rewrite http_call.
    destruct (serve (request page) (server w)).1 as [r|] eqn:Hr.
    + assert (forall X : result (list A),
                exists replies,
                  List.length replies <= S fuel
                  /\ calls ((X, after_call serve (request page) w)).2
                     = (calls w
                        ++ zip (request <$>
                                  seqZ page (Z.of_nat (List.length replies)))
                               replies)%list) as Hone.
      { intros X. exists [Responded r]. split; [simpl; lia|].
        simpl. rewrite Hr. reflexivity. }
      destruct (negb (ok r)); [apply Hone|].
      destruct (page >=? _)%Z; [apply Hone|].
      destruct (IH (page + 1)%Z
                  (acc ++ default [] (key (body r)))%list
                  (after_call serve (request page) w))
        as (replies & Hlen & Hcalls).
      exists (Responded r :: replies). split; [simpl; lia|].
      rewrite Hcalls. cbn [after_call calls List.length].
      rewrite Nat2Z.inj_succ, (seqZ_cons page) by lia.
      rewrite Z.pred_succ, Hr, <- app_assoc. reflexivity.
    + exists [Failed]. split; [simpl; lia|].
      simpl. rewrite Hr. reflexivity.
Qed.

(** X9: a page-counter collection requests the pages 1, 2, 3, ... in this
    order, each once, and nothing else, however it ends; the number of
    requests is at most the fuel it was given. *)
Theorem page_collection_requests_in_order {A} collect request
    (key : Body -> option (list A)) (fuel : nat) (w : World Srv) :
  page_collection serve collect request key ->
  exists replies,
    List.length replies <= fuel
    /\ calls (collect fuel w).2
       = (calls w
          ++ zip (request <$> seqZ 1 (Z.of_nat (List.length replies)))
                 replies)%list.
Proof.
  intros Hc. rewrite (page_collection_loop serve _ _ _ Hc).
  apply page_loop_calls.
Qed.

(** The page-counter loop over pages that go on, followed by a call that
    fails in the transport. *)
Lemma page_loop_transport {A} request (key : Body -> option (list A))
    (rs : list Response) :
  forall page acc (w : World Srv) fuel,
    answers serve request page ((Responded <$> rs) ++ [Failed])%list w ->
    continues page rs ->
    List.length rs < fuel ->
    (page_loop serve request key fuel page acc w).1 = Raise TransportError.
Proof.
  induction rs as [|r rs IH]; intros page acc w fuel Hans Hc Hfuel.
  - destruct fuel as [|fuel]; [simpl in Hfuel; lia|].
    destruct Hans as [Hr _].
    cbn [page_loop]. unfold bind. rewrite http_call, Hr. reflexivity.
  - destruct fuel as [|fuel]; [simpl in Hfuel; lia|].
    destruct Hans as [Hr Hans]. destruct Hc as (Hokr & Hlt & Hc).
    cbn [page_loop]. unfold bind. rewrite http_call, Hr, Hokr.
    cbn [negb]. destruct (page >=? _)%Z eqn:Hstop; [lia|].
    apply IH; auto. simpl in Hfuel. lia.
Qed.

(** X10: a transport failure on a page of a page-counter collection is not
    absorbed: after pages that go on, a call that fails in the transport
    makes the collection raise, and the items of the earlier pages are not
    returned. *)
Theorem page_collection_raises_on_transport_failure {A} collect request
    (key : Body -> option (list A)) (rs : list Response)
    (w : World Srv) (fuel : nat) :
  page_collection serve collect request key ->
  answers serve request 1 ((Responded <$> rs) ++ [Failed])%list w ->
  continues 1 rs ->
  List.length rs < fuel ->
  (collect fuel w).1 = Raise TransportError.
Proof.
  intros Hc Hans Hgo Hfuel. rewrite (page_collection_loop serve _ _ _ Hc).
  apply (page_loop_transport request key rs 1%Z []); auto.
Qed.

Lemma append_nonempty (a b : string) : b <> "" -> (a ++ b)%string <> "".
Proof. destruct a; [auto|discriminate]. Qed.

Lemma linked_url_nonempty r u :
  linked_url AFFINITY_BASE_URL r = Some u -> u <> "".
Proof.
  unfold linked_url. destruct (nextUrl (body r)) as [next|]; [|discriminate].
  destruct (String.eqb_spec next "") as [|Hne]; [discriminate|].
  destruct (String.prefix "http" next); intros [= <-];
    [exact Hne|apply append_nonempty, Hne].
Qed.

(** One turn of the link-style loop on a successful response. *)
Lemma entries_loop_turn fuel url params acc (w : World Srv) r :
  url <> "" ->
  (serve (GetAffinity url params) (server w)).1 = Responded r ->
  ok r = true ->
  entries_loop serve AFFINITY_BASE_URL (S fuel) (Some url) params acc w
  = entries_loop serve AFFINITY_BASE_URL fuel
      (linked_url AFFINITY_BASE_URL r) None
      (acc ++ default [] (data (body r)))%list
      (after_call serve (GetAffinity url params) w).
Proof.
  intros Hurl Hr Hok. cbn [entries_loop].
  apply String.eqb_neq in Hurl. rewrite Hurl.
  unfold bind at 1. rewrite http_call, Hr.
  unfold bind at 1, raise_for_status. rewrite Hok. reflexivity.
Qed.

Lemma entries_loop_follows (rs : list Response) :
  forall url params acc (w : World Srv) fuel,
    url <> "" ->
    rs <> [] ->
    follows serve AFFINITY_BASE_URL url params rs w ->
    List.length rs < fuel ->
    (entries_loop serve AFFINITY_BASE_URL fuel (Some url) params acc w).1
    = Ok (acc ++ items_of data rs)%list.
Proof.
  induction rs as [|r rs IH]; intros url params acc w fuel Hurl Hne Hf Hfuel;
    [congruence|].
  destruct fuel as [|fuel]; [simpl in Hfuel; lia|].
  destruct Hf as (Hr & Hok & Hnext).
  rewrite (entries_loop_turn _ _ _ _ _ _ Hurl Hr Hok), items_of_cons.
  destruct rs as [|r2 rs].
  - rewrite Hnext. destruct fuel as [|fuel]; [simpl in Hfuel; lia|].
    unfold items_of. simpl. rewrite app_nil_r. reflexivity.
  - destruct Hnext as (next & Hlink & Hrest). rewrite Hlink, app_assoc.
    apply IH;
      [apply (linked_url_nonempty _ _ Hlink)|discriminate|exact Hrest|].
    simpl in Hfuel |- *. lia.
Qed.

(** X11: when the first page of the list and every page linked from it is
    answered with a success status, and the last names no further page,
    [get_affinity_list_entries] returns, given fuel for one turn more than
    there are pages, the entries of all the pages in page order. A link
    that does not start with "http" is resolved against the base URL. *)
Theorem get_affinity_list_entries_follows_links
    (list_id : string) (rs : list Response) (w : World Srv) (fuel : nat) :
  rs <> [] ->
  follows serve AFFINITY_BASE_URL
    (AFFINITY_BASE_URL ++ "/v2/lists/" ++ list_id ++ "/list-entries")
    (Some 100%Z) rs w ->
  List.length rs < fuel ->
  (get_affinity_list_entries serve AFFINITY_BASE_URL fuel list_id w).1
  = Ok (items_of data rs).
Proof.
  intros Hne Hf Hfuel. unfold get_affinity_list_entries.
  apply (entries_loop_follows rs _ _ [] w fuel); auto.
  apply append_nonempty. discriminate.
Qed.

Lemma entries_loop_without_limit fuel :
  forall url acc,
    respects (logs without_limit)
      (entries_loop serve AFFINITY_BASE_URL fuel url None acc).
Proof.
  induction fuel as [|fuel IH]; intros url acc; simpl.
  - by_frame @respects_out_of_fuel.
  - destruct url as [u|]; [|by_frame @respects_ret].
    destruct (String.eqb u ""); [by_frame @respects_ret|].
    by_frame @respects_bind; [apply http_logs; reflexivity|intros r].
    by_frame @respects_bind;
      [unfold raise_for_status; repeat frame_step|intros _].
    apply IH.
Qed.

(** X12: only the first request of [get_affinity_list_entries] carries the
    [limit] parameter: the calls it makes, however it ends, are a request
    for the list's URL with [limit = 100], followed by requests without
    parameters. *)
Theorem get_affinity_list_entries_limit_once
    (fuel : nat) (list_id : string) (w : World Srv) :
  exists new,
    calls (get_affinity_list_entries serve AFFINITY_BASE_URL fuel list_id w).2
    = (calls w ++ new)%list
    /\ match new with
       | [] => True
       | first :: rest =>
           first.1 = GetAffinity (AFFINITY_BASE_URL ++ "/v2/lists/"
                                  ++ list_id ++ "/list-entries") (Some 100%Z)
           /\ Forall (fun c => without_limit c.1 = true) rest
       end.
Proof.
  unfold get_affinity_list_entries.
  set (url := (AFFINITY_BASE_URL ++ "/v2/lists/" ++ list_id
               ++ "/list-entries")%string).
  destruct fuel as [|fuel].
  - exists []. rewrite app_nil_r. auto.
  - cbn [entries_loop]. destruct (String.eqb url "").
    { exists []. rewrite app_nil_r. auto. }
    unfold bind at 1. rewrite http_call.
    destruct (serve (GetAffinity url (Some 100%Z)) (server w)).1 as [r|] eqn:Hr.
    + unfold bind at 1, raise_for_status. destruct (ok r).
      * destruct (entries_loop_without_limit fuel
                    (match nextUrl (body r) with
                     | Some next_url =>
                         if String.eqb next_url "" then None
                         else if String.prefix "http" next_url
                              then Some next_url
                              else Some (AFFINITY_BASE_URL ++ next_url)%string
                     | None => None
                     end)
                    ([] ++ default [] (data (body r)))%list
                    (after_call serve (GetAffinity url (Some 100%Z)) w))
          as (new & Hcalls & Hnew).
        exists ((GetAffinity url (Some 100%Z), Responded r) :: new).
        cbn [ret] in *. rewrite Hcalls. cbn [after_call calls].
        rewrite Hr, <- app_assoc. auto.
      * exists [(GetAffinity url (Some 100%Z), Responded r)].
        simpl. rewrite Hr. auto.
    + exists [(GetAffinity url (Some 100%Z), Failed)].
      simpl. rewrite Hr. auto.
Qed.

End CollectionsMore.

(* ===================================================================== *)
(** * The order of strings *)
(* ===================================================================== *)

Module StrOrder.

Lemma ascii_compare_refl a : Ascii.compare a a = Eq.
Proof. unfold Ascii.compare. apply N.compare_refl. Qed.

Lemma ascii_compare_lt_trans a b c :
  Ascii.compare a b = Lt -> Ascii.compare b c = Lt -> Ascii.compare a c = Lt.
Proof.
  unfold Ascii.compare. rewrite !N.compare_lt_iff. apply N.lt_trans.
Qed.

Lemma compare_refl s : String.compare s s = Eq.
Proof.
  induction s as [|a s IH]; [reflexivity|].
  simpl. rewrite ascii_compare_refl. exact IH.
Qed.

Lemma compare_lt_trans s1 :
  forall s2 s3,
    String.compare s1 s2 = Lt -> String.compare s2 s3 = Lt ->
    String.compare s1 s3 = Lt.
Proof.
  induction s1 as [|a s1 IH]; intros [|b s2] [|c s3]; simpl;
    try congruence.
  destruct (Ascii.compare a b) eqn:Hab; try discriminate;
    destruct (Ascii.compare b c) eqn:Hbc; try discriminate.
  - apply Ascii.compare_eq_iff in Hab, Hbc. subst.
    rewrite ascii_compare_refl. apply IH.
  - apply Ascii.compare_eq_iff in Hab. subst. rewrite Hbc. reflexivity.
  - apply Ascii.compare_eq_iff in Hbc. subst. rewrite Hab. reflexivity.
  - rewrite (ascii_compare_lt_trans _ _ _ Hab Hbc). reflexivity.
Qed.

Lemma ltb_lt a b : String.ltb a b = true <-> String.compare a b = Lt.
Proof. unfold String.ltb. destruct (String.compare a b); split; congruence. Qed.

Lemma not_after_refl a : not_after a a.
Proof. unfold not_after, String.ltb. rewrite compare_refl. reflexivity. Qed.

Lemma not_after_trans a b c : not_after a b -> not_after b c -> not_after a c.
Proof.
  unfold not_after. intros Hab Hbc.
  destruct (String.ltb c a) eqn:Hca; [|reflexivity].
  apply ltb_lt in Hca.
  destruct (String.compare c b) eqn:Hcb.
  - apply String.compare_eq_iff in Hcb. subst c.
    apply ltb_lt in Hca. congruence.
  - apply ltb_lt in Hcb. congruence.
  - assert (String.compare b c = Lt) as Hbc'
      by (rewrite String.compare_antisym, Hcb; reflexivity).
    pose proof (compare_lt_trans _ _ _ Hbc' Hca) as Hba.
    apply ltb_lt in Hba. congruence.
Qed.

Lemma lt_not_after a b : String.ltb a b = true -> not_after a b.
Proof.
  unfold not_after. intros H. apply ltb_lt in H.
  unfold String.ltb. rewrite String.compare_antisym, H. reflexivity.
Qed.

Lemma leb_trans a b c :
  String.leb a b = true -> String.leb b c = true -> String.leb a c = true.
Proof.
  unfold String.leb. intros Hab Hbc.
  destruct (String.compare a c) eqn:Hac; try reflexivity.
  assert (String.compare c a = Lt) as Hca
    by (rewrite String.compare_antisym, Hac; reflexivity).
  destruct (String.compare a b) eqn:E1; try discriminate;
    destruct (String.compare b c) eqn:E2; try discriminate.
  - apply String.compare_eq_iff in E1, E2. subst.
    rewrite compare_refl in Hac. discriminate.
  - apply String.compare_eq_iff in E1. subst. congruence.
  - apply String.compare_eq_iff in E2. subst. congruence.
  - pose proof (compare_lt_trans _ _ _ E1 E2). congruence.
Qed.

#[global] Instance str_le_total : Total str_le.
Proof. intros a b. apply String.leb_total. Qed.

#[global] Instance str_le_trans : Transitive str_le.
Proof. intros a b c. apply leb_trans. Qed.

#[global] Instance str_le_antisym : AntiSymm eq str_le.
Proof. intros a b. apply String.leb_antisym. Qed.

End StrOrder.

(* ===================================================================== *)
(** * The latest data point *)
(* ===================================================================== *)

Section LatestFacts.
Import StrOrder.

Context {Srv : Type}.
Variable serve : Request -> Srv -> Reply * Srv.

Lemma latest_step_grows latest dp :
  not_after (latest_date latest) (latest_date (latest_step latest dp)).
Proof.
  unfold latest_step. destruct (dp_date dp) as [date|];
    [|apply not_after_refl].
  destruct (negb _ && negb _) eqn:E; cbn [andb]; [|apply not_after_refl].
  destruct (String.ltb (latest_date latest) date) eqn:Hlt;
    [apply lt_not_after, Hlt|apply not_after_refl].
Qed.

Lemma latest_step_covers latest dp date :
  usable dp = true ->
  dp_date dp = Some date ->
  not_after date (latest_date (latest_step latest dp)).
Proof.
  unfold usable, latest_step. intros Hu Hd. rewrite Hd in *. rewrite Hu.
  cbn [andb].
  destruct (String.ltb (latest_date latest) date) eqn:Hlt;
    [apply not_after_refl|exact Hlt].
Qed.

(** What one turn of [for dp in points] does: it keeps the selection, or
    it takes the date and value of [dp], which is then usable and dated
    after the selection. *)
Lemma latest_step_cases latest dp :
  latest_step latest dp = latest
  \/ exists date,
       dp_date dp = Some date
       /\ usable dp = true
       /\ String.ltb (latest_date latest) date = true
       /\ latest_step latest dp
          = {| latest_date := date; latest_value := dp_value dp |}.
Proof.
  unfold latest_step, usable.
  destruct (dp_date dp) as [date|]; [|left; reflexivity].
  destruct (negb _ && negb _); cbn [andb]; [|left; reflexivity].
  destruct (String.ltb (latest_date latest) date) eqn:Hlt;
    [|left; reflexivity].
  right. exists date. auto.
Qed.

Lemma latest_among_step seen latest dp :
  latest_among seen latest ->
  latest_among (seen ++ [dp]) (latest_step latest dp).
Proof.
  intros [Hmax Hfrom]. split.
  - apply Forall_app. split.
    + eapply Forall_impl; [exact Hmax|].
      intros dp' H Hu date Hd.
      eapply not_after_trans; [apply (H Hu date Hd)|apply latest_step_grows].
    + constructor; [|constructor]. intros Hu date Hd.
      apply latest_step_covers; assumption.
  - destruct (latest_step_cases latest dp)
      as [->|(date & Hd & Hu & Hlt & ->)].
    + destruct Hfrom as [->|(dp' & Hin & H)]; [left; reflexivity|].
      right. exists dp'. split; [apply elem_of_app; auto|exact H].
    + right. exists dp. cbn [latest_date latest_value].
      split; [apply elem_of_app; right; left|].
      repeat split; auto.
      destruct Hfrom as [->|(dp' & _ & _ & _ & _ & Hpos)]; [exact Hlt|].
      apply ltb_lt. apply ltb_lt in Hpos, Hlt.
      apply (compare_lt_trans _ _ _ Hpos Hlt).
Qed.

Lemma latest_among_fold points :
  forall seen latest,
    latest_among seen latest ->
    latest_among (seen ++ points) (fold_left latest_step points latest).
Proof.
  induction points as [|dp points IH]; intros seen latest H; simpl.
  - rewrite app_nil_r. exact H.
  - replace (seen ++ dp :: points)%list with ((seen ++ [dp]) ++ points)%list
      by (rewrite <- app_assoc; reflexivity).
    apply IH, latest_among_step, H.
Qed.

Lemma latest_among_start : latest_among [] no_data.
Proof. split; [constructor|left; reflexivity]. Qed.

Lemma fold_latest_items rs r latest :
  fold_left latest_step (items_of data_points (r :: rs)) latest
  = fold_left latest_step (items_of data_points rs)
      (fold_left latest_step (default [] (data_points (body r))) latest).
Proof. rewrite items_of_cons, fold_left_app. reflexivity. Qed.

(** The loop of [get_latest_data_point] over pages that go on, up to a
    successful page that is the last by its own count. *)
Lemma latest_loop_reads metric (rs : list Response) final :
  forall page latest (w : World Srv) fuel,
    answers serve (GetDataPoints metric) page
      (Responded <$> (rs ++ [final])%list) w ->
    continues page rs ->
    ok final = true ->
    (page + Z.of_nat (List.length rs)
     >= default 1 (total_pages (body final)))%Z ->
    List.length rs < fuel ->
    (latest_loop serve metric fuel page latest w).1
    = Ok (fold_left latest_step
            (items_of data_points (rs ++ [final])%list) latest).
Proof.
  induction rs as [|r rs IH]; intros page latest w fuel Hans Hc Hok Hstop Hfuel;
    (destruct fuel as [|fuel]; [simpl in Hfuel; lia|]);
    destruct Hans as [Hr Hans]; cbn [latest_loop]; unfold bind;
    rewrite http_call, Hr.
  - rewrite Hok. cbn [negb].
    destruct (page >=? _)%Z eqn:E; [|simpl in Hstop; lia].
    unfold items_of. simpl. rewrite app_nil_r. reflexivity.
  - destruct Hc as (Hokr & Hlt & Hc). rewrite Hokr. cbn [negb].
    destruct (page >=? _)%Z eqn:E; [lia|].
    change ((r :: rs) ++ [final])%list with (r :: (rs ++ [final]))%list.
    rewrite fold_latest_items. apply IH; auto.
    + simpl List.length in Hstop. lia.
    + simpl in Hfuel. lia.
Qed.

(** The same loop, up to a page that is answered with a non-success
    status. *)
Lemma latest_loop_partial metric (rs : list Response) bad :
  forall page latest (w : World Srv) fuel,
    answers serve (GetDataPoints metric) page
      (Responded <$> (rs ++ [bad])%list) w ->
    continues page rs ->
    ok bad = false ->
    List.length rs < fuel ->
    (latest_loop serve metric fuel page latest w).1
    = Ok (fold_left latest_step (items_of data_points rs) latest).
Proof.
  induction rs as [|r rs IH]; intros page latest w fuel Hans Hc Hbad Hfuel;
    (destruct fuel as [|fuel]; [simpl in Hfuel; lia|]);
    destruct Hans as [Hr Hans]; cbn [latest_loop]; unfold bind;
    rewrite http_call, Hr.
  - rewrite Hbad. reflexivity.
  - destruct Hc as (Hokr & Hlt & Hc). rewrite Hokr. cbn [negb].
    destruct (page >=? _)%Z eqn:E; [lia|].
    rewrite fold_latest_items. apply IH; auto. simpl in Hfuel. lia.
Qed.

(** X13: when the pages of data points are all answered with a success
    status, up to the one that is the last by its own count,
    [get_latest_data_point] returns a selection among all their points: no
    point with a usable value and a date is dated after it, and it is
    either the start value (date "0000-00-00", value [None]) or the date
    and value of a usable point dated after "0000-00-00". *)
Theorem get_latest_data_point_selects_latest
    (metric : string) (rs : list Response) (final : Response)
    (w : World Srv) (fuel : nat) :
  answers serve (GetDataPoints metric) 1
    (Responded <$> (rs ++ [final])%list) w ->
  continues 1 rs ->
  ok final = true ->
  (1 + Z.of_nat (List.length rs) >= default 1 (total_pages (body final)))%Z ->
  List.length rs < fuel ->
  exists latest,
    (get_latest_data_point serve fuel metric w).1 = Ok latest
    /\ latest_among (items_of data_points (rs ++ [final])%list) latest.
Proof.
  intros Hans Hc Hok Hstop Hfuel. eexists. split.
  - unfold get_latest_data_point.
    apply (latest_loop_reads metric rs final 1%Z); eauto.
  - apply (latest_among_fold _ [] no_data), latest_among_start.
Qed.

(** X14: a non-success status on a page of data points ends the loop
    without raising: [get_latest_data_point] returns the selection among
    the points of the pages before it, and the start value (value [None])
    when it is the first page that fails. *)
Theorem get_latest_data_point_on_bad_status
    (metric : string) (rs : list Response) (bad : Response)
    (w : World Srv) (fuel : nat) :
  answers serve (GetDataPoints metric) 1
    (Responded <$> (rs ++ [bad])%list) w ->
  continues 1 rs ->
  ok bad = false ->
  List.length rs < fuel ->
  exists latest,
    (get_latest_data_point serve fuel metric w).1 = Ok latest
    /\ latest_among (items_of data_points rs) latest
    /\ (rs = [] -> latest = no_data).
Proof.
  intros Hans Hc Hbad Hfuel. eexists. split; [|split].
  - unfold get_latest_data_point.
    apply (latest_loop_partial metric rs bad 1%Z); eauto.
  - apply (latest_among_fold _ [] no_data), latest_among_start.
  - intros ->. reflexivity.
Qed.

End LatestFacts.

(* ===================================================================== *)
(** * More on the fetch of the source map *)
(* ===================================================================== *)


Lemma find_none {A} (f : A -> bool) (l : list A) :
  Forall (fun x => f x = false) l -> List.find f l = None.
Proof. induction 1 as [|x l Hx _ IH]; simpl; [|rewrite Hx]; auto. Qed.

Section FetchMore.

Context {Srv : Type}.
Variable serve : Request -> Srv -> Reply * Srv.
Variable urlparse : string -> option ParseResult.
Variable float_of_string : string -> option float.

Abbreviation fetch_company' :=
  (fetch_company serve urlparse float_of_string).
Abbreviation fetch' :=
  (fetch_visible_metric_data serve urlparse float_of_string).



(** X16: [fetch_visible_metric_data] only reads, and only from Visible:
    however it ends, every call it made is one of the five GET requests to
    Visible. *)
Theorem fetch_visible_metric_data_reads_visible
    (fuel : nat) (metric_name : string) (w : World Srv) :
  logs is_visible_request w (fetch' fuel metric_name w).2.
Proof.
  apply (fetch_visible_metric_data_logs serve urlparse float_of_string
           is_visible_request fuel metric_name (fun q H => H) w).
Qed.

Lemma get_company_website_call profile wid (w : World Srv) :
  (get_company_website serve profile wid w).2
  = after_call serve (GetPropertyValues profile) w.
Proof.
  unfold get_company_website, bind. rewrite http_call.
  destruct (serve _ _).1 as [r|]; [|reflexivity].
  destruct (negb (ok r)); reflexivity.
Qed.

(** X17: a company is skipped at the cost of the requests made so far.
    (1) Without a website value, or with the value "" or "N/A", the turn
    for the company leaves the map alone after the one request for its
    property values. (2) With a website but no metric of the requested
    name, it leaves the map alone after the requests for the company's
    metrics: no data point is requested. *)
Theorem fetch_company_skips
    (fuel : nat) (metric_name wid : string) (visible : gmap string float)
    (company : Company) (w : World Srv) :
  (forall site w1,
     get_company_website serve (profile_id company) wid w = (Ok site, w1) ->
     site = None \/ site = Some "" \/ site = Some "N/A" ->
     fetch_company' fuel metric_name wid visible company w
     = (Ok visible, after_call serve (GetPropertyValues (profile_id company)) w))
  /\ (forall website nd ms w1 w2,
        get_company_website serve (profile_id company) wid w
        = (Ok (Some website), w1) ->
        website <> "" -> website <> "N/A" ->
        normalize_domain urlparse website = Ok nd -> nd <> "" ->
        get_visible_company_metrics serve fuel (profile_id company) w1
        = (Ok ms, w2) ->
        Forall (fun m => PyStr.lower (PyStr.strip (default "" (m_name m)))
                         <> PyStr.strip (PyStr.lower metric_name)) ms ->
        fetch_company' fuel metric_name wid visible company w
        = (Ok visible, w2)
        /\ logs (fun q => match q with GetMetrics _ _ => true | _ => false end)
                w1 w2).
Proof.
  split.
  - intros site w1 Hsite Hcases.
    pose proof (get_company_website_call (profile_id company) wid w) as Hw.
    rewrite Hsite in Hw. simpl in Hw. subst w1.
    unfold fetch_company. unfold bind at 1. rewrite Hsite.
    destruct Hcases as [->|[->| ->]]; reflexivity.
  - intros website nd ms w1 w2 Hsite Hne Hna Hnd Hnd' Hms Hnone.
    split.
    + unfold fetch_company. unfold bind at 1. rewrite Hsite.
      apply String.eqb_neq in Hne, Hna, Hnd'. rewrite Hne, Hna. cbn [orb].
      unfold bind at 1, lift at 1. rewrite Hnd, Hnd'.
      unfold bind at 1. rewrite Hms, find_none; [reflexivity|].
      eapply Forall_impl; [exact Hnone|].
      intros m Hm. apply String.eqb_neq, Hm.
    + pose proof (page_loop_logs serve
                    (fun q => match q with GetMetrics _ _ => true | _ => false end)
                    (fun page => GetMetrics page (Some (profile_id company)))
                    metrics fuel (fun _ => eq_refl) 1%Z [] w1) as H.
      unfold get_visible_company_metrics in Hms. rewrite Hms in H. exact H.
Qed.

(** X18: without a Website property the map is empty and no company is
    looked at: when the request for the portfolio properties is answered
    with a non-success status, or no property has a name that starts with
    "website" in lower case, [fetch_visible_metric_data] returns the empty
    map right after that request. *)
Theorem fetch_visible_metric_data_without_website_property
    (fuel : nat) (metric_name : string) (w w1 : World Srv)
    (companies : list Company) (r : Response) :
  get_visible_portfolio_companies serve fuel w = (Ok companies, w1) ->
  (serve GetPortfolioProperties (server w1)).1 = Responded r ->
  ok r = false
  \/ Forall (fun p => String.prefix "website" (PyStr.lower (property_name p))
                      = false)
            (default [] (portfolio_properties (body r))) ->
  fetch' fuel metric_name w
  = (Ok ∅, after_call serve GetPortfolioProperties w1).
Proof.
  intros Hcs Hr Hcases.
  unfold fetch_visible_metric_data. unfold bind at 1. rewrite Hcs.
  unfold bind at 1, get_website_property_id, bind at 1.
  rewrite http_call, Hr.
  destruct (ok r) eqn:Hok; cbn [negb]; [|reflexivity].
  destruct Hcases as [|Hnone]; [discriminate|].
  unfold ret at 1. rewrite (find_none _ _ Hnone). reflexivity.
Qed.

End FetchMore.

(* ===================================================================== *)
(** * The metric names *)
(* ===================================================================== *)

Section MetricNamesFacts.
Import StrOrder.

Context {Srv : Type}.
Variable serve : Request -> Srv -> Reply * Srv.

Lemma elem_of_named metrics name :
  name ∈ named metrics
  <-> name <> "" /\ exists m, m ∈ metrics /\ m_name m = Some name.
Proof.
  unfold named. rewrite list_elem_of_omap. split.
  - intros (m & Hin & Hm). destruct (m_name m) as [n|] eqn:E; [|discriminate].
    destruct (String.eqb_spec n ""); [discriminate|].
    injection Hm as ->. split; [assumption|]. exists m. auto.
  - intros (Hne & m & Hin & Hm). exists m. split; [exact Hin|].
    rewrite Hm. apply String.eqb_neq in Hne. rewrite Hne. reflexivity.
Qed.

(** X19: the names that [get_visible_metric_names] returns are those of
    the metrics that [get_visible_metrics] collects and that have a name
    that is not empty, and only those; each occurs once; and they are in
    ascending order of [str]. *)
Theorem get_visible_metric_names_sorted_set
    (fuel : nat) (w w' : World Srv) (names : list string) :
  get_visible_metric_names serve fuel w = (Ok names, w') ->
  exists metrics,
    get_visible_metrics serve fuel w = (Ok metrics, w')
    /\ StronglySorted str_le names
    /\ NoDup names
    /\ forall name,
         name ∈ names
         <-> name <> "" /\ exists m, m ∈ metrics /\ m_name m = Some name.
Proof.
  unfold get_visible_metric_names, bind.
  destruct (get_visible_metrics serve fuel w) as [[metrics| |] w1];
    try discriminate.
  intros [= <- <-]. exists metrics. split; [reflexivity|].
  unfold sorted_set. split; [apply StronglySorted_merge_sort; apply _|].
  split.
  - rewrite merge_sort_Permutation. apply NoDup_remove_dups.
  - intros name. rewrite merge_sort_Permutation, elem_of_remove_dups.
    apply elem_of_named.
Qed.

End MetricNamesFacts.

(* ===================================================================== *)
(** * More on the run *)
(* ===================================================================== *)

Section RunMore.

Context {Srv : Type}.
Variable serve : Request -> Srv -> Reply * Srv.
Variable urlparse : string -> option ParseResult.
Variable float_of_string : string -> option float.
Variable AFFINITY_BASE_URL : string.

Abbreviation sync'' :=
  (sync_runway_data serve urlparse float_of_string AFFINITY_BASE_URL).

Lemma zip_patches list_id field_id (ms : list Match) (replies : list Reply) :
  Forall (fun c : Request * Reply => is_patch c.1 = true)
    (zip (patch_of AFFINITY_BASE_URL list_id field_id <$> ms) replies).
Proof.
  revert replies. induction ms as [|m ms IH]; intros [|r replies]; simpl;
    constructor; auto.
Qed.

(** X20: a run that is not a dry run updates only after it has read
    everything: however it ends, the calls it made are reads (no [PATCH]
    among them) followed by updates (only [PATCH]). *)
Theorem sync_runway_data_reads_then_updates
    (fuel : nat) (list_id metric_name field_id : string) (w : World Srv) :
  exists reads updates,
    calls (sync'' fuel false list_id metric_name field_id w).2
    = (calls w ++ reads ++ updates)%list
    /\ Forall (fun c => is_patch c.1 = false) reads
    /\ Forall (fun c => is_patch c.1 = true) updates.
Proof.
  assert (forall q, is_patch q = false -> negb (is_patch q) = true) as HP
    by (intros q ->; reflexivity).
  pose proof (reconcile_logs serve urlparse float_of_string AFFINITY_BASE_URL
                (fun q => negb (is_patch q)) fuel list_id metric_name HP w)
    as (reads & Hreads & Hall).
  assert (Forall (fun c : Request * Reply => is_patch c.1 = false) reads)
    as Hall'.
  { eapply Forall_impl; [exact Hall|].
    intros c Hc. apply negb_true_iff, Hc. }
  unfold sync_runway_data, bind at 1.
  destruct (reconcile _ _ _ _ _ _ _ w) as [[[st|]| |] w1]; simpl in Hreads.
  - unfold apply_updates, update_matches, bind at 1. unfold bind at 1.
    rewrite update_loop_run. cbn [snd ret].
    exists reads,
      (zip (patch_of AFFINITY_BASE_URL list_id field_id <$> matches st)
           (replies_to serve
              (patch_of AFFINITY_BASE_URL list_id field_id <$> matches st) w1)).
    rewrite after_calls_log, Hreads, <- app_assoc.
    split; [reflexivity|]. split; [exact Hall'|apply zip_patches].
  - exists reads, []. rewrite app_nil_r. simpl. auto.
  - exists reads, []. rewrite app_nil_r. simpl. auto.
  - exists reads, []. rewrite app_nil_r. simpl. auto.
Qed.

(** X21: a failed read of the list ends the run, dry run or not: when the
    source map is not empty and [get_affinity_list_entries] raises, the
    run raises the same exception in the world that the read left, with
    no matching and no update. *)
Theorem sync_runway_data_raises_with_entries
    (fuel : nat) (dry_run : bool) (list_id metric_name field_id : string)
    (w w1 w2 : World Srv) (visible : gmap string float) (e : exn) :
  fetch_visible_metric_data serve urlparse float_of_string fuel metric_name w
  = (Ok visible, w1) ->
  visible <> ∅ ->
  get_affinity_list_entries serve AFFINITY_BASE_URL fuel list_id w1
  = (Raise e, w2) ->
  sync'' fuel dry_run list_id metric_name field_id w = (Raise e, w2).
Proof.
  intros Hfetch Hne Hentries.
  unfold sync_runway_data, reconcile, bind. rewrite Hfetch.
  rewrite bool_decide_eq_false_2 by exact Hne. rewrite Hentries. reflexivity.
Qed.

End RunMore.

(* ===================================================================== *)
(** * More theorems on the worked scenario *)
(* ===================================================================== *)

Module MoreRuns.
Import Scenario MoreScenario.

Lemma normalize_domain_normal_form_witness :
  PyStr.lower "example.com" = "example.com"
  /\ PyStr.starts_with PyStr.is_space "example.com" = false
  /\ PyStr.ends_with PyStr.is_slash "example.com" = false.
Proof.
  apply (normalize_domain_normal_form urlparse
           "https://www.Example.com/" "example.com").
  reflexivity.
Defined.

Lemma normalize_domain_ignores_case_witness :
  normalize_domain urlparse "Example.COM/"
  = normalize_domain urlparse "EXAMPLE.com/".
Proof.
  apply normalize_domain_ignores_case;
    [reflexivity|discriminate|discriminate|reflexivity|reflexivity].
Defined.

Lemma match_companies_counts_records_witness :
  exists st',
    match_companies urlparse records (start_matching source_map) = (Ok tt, st')
    /\ List.length (matches st') + List.length (unmatched_affinity st') = 3.
Proof.
  eexists. split; [vm_compute; reflexivity|].
  erewrite (match_companies_counts_records urlparse records
              (start_matching source_map));
    [reflexivity|vm_compute; reflexivity].
Defined.

Lemma match_companies_returns_without_scheme_witness :
  (match_companies urlparse records (start_matching source_map)).1 = Ok tt.
Proof.
  apply match_companies_returns_without_scheme.
  repeat constructor.
Defined.

Lemma page_collection_requests_in_order_witness :
  exists replies,
    List.length replies <= 5
    /\ calls (get_visible_portfolio_companies (serve NoFault) 5 start).2
       = (calls start
          ++ zip (GetCompanyProfiles
                    <$> seqZ 1 (Z.of_nat (List.length replies)))
                 replies)%list.
Proof.
  apply (page_collection_requests_in_order (serve NoFault) _ _ _ 5 start
           (companies_collection (serve NoFault))).
Defined.

Lemma page_collection_raises_on_transport_failure_witness :
  (get_visible_portfolio_companies Script.serve 5
     (Script.start [Responded companies_page_1; Failed])).1
  = Raise TransportError.
Proof.
  apply (page_collection_raises_on_transport_failure Script.serve _ _ _
           [companies_page_1] _ 5 (companies_collection Script.serve)).
  - vm_compute. repeat split.
  - simpl. repeat split; reflexivity || lia.
  - simpl. lia.
Defined.

Lemma get_affinity_list_entries_follows_links_witness :
  (get_affinity_list_entries (serve NoFault) base_url 3 "L" start).1
  = Ok [record "1" "first" ["a"]; record "2" "second" ["a"; "b"];
        record "3" "third" ["c"]].
Proof.
  apply (get_affinity_list_entries_follows_links (serve NoFault) base_url "L"
           [entries_page_1; entries_page_2] start 3).
  - discriminate.
  - vm_compute. repeat split. eexists. repeat split.
  - simpl. lia.
Defined.

Lemma get_latest_data_point_selects_latest_witness :
  exists latest,
    (get_latest_data_point (serve NoFault) 1 "ma" start).1 = Ok latest
    /\ latest_among
         (items_of data_points ([] ++ [points_of_alpha])%list) latest.
Proof.
  apply (get_latest_data_point_selects_latest (serve NoFault) "ma" []
           points_of_alpha start 1).
  - vm_compute. repeat split.
  - exact I.
  - reflexivity.
  - simpl. lia.
  - simpl. lia.
Defined.

Lemma get_latest_data_point_on_bad_status_witness :
  exists latest,
    (get_latest_data_point (serve NoFault) 1 "zz" start).1 = Ok latest
    /\ latest_among (items_of data_points []) latest
    /\ (@nil Response = [] -> latest = no_data).
Proof.
  apply (get_latest_data_point_on_bad_status (serve NoFault) "zz" []
           {| status_code := 404; body := no_body |} start 1).
  - vm_compute. repeat split.
  - exact I.
  - reflexivity.
  - simpl. lia.
Defined.


Lemma fetch_company_skips_witness :
  fetch_company (serve NoFault) urlparse float_of_string 2 "Runway" "w"
    source_map gamma start
  = (Ok source_map,
     after_call (serve NoFault) (GetPropertyValues (Some "cc")) start).
Proof.
  eapply (proj1 (fetch_company_skips (serve NoFault) urlparse float_of_string
                   2 "Runway" "w" source_map gamma start)).
  - vm_compute. reflexivity.
  - left. reflexivity.
Defined.

Lemma fetch_visible_metric_data_without_website_property_witness :
  (fetch_visible_metric_data Script.serve urlparse float_of_string 2 "Runway"
     (Script.start [respond 200 (companies_page [alpha] 1);
                    respond 500 no_body])).1
  = Ok ∅.
Proof.
  erewrite (fetch_visible_metric_data_without_website_property Script.serve
              urlparse float_of_string 2 "Runway");
    [reflexivity|vm_compute; reflexivity|reflexivity|left; reflexivity].
Defined.

Lemma get_visible_metric_names_sorted_set_witness :
  exists names w',
    get_visible_metric_names Script.serve 2
      (Script.start [Responded names_page]) = (Ok names, w')
    /\ names = ["Burn"; "Runway"]
    /\ StronglySorted str_le names.
Proof.
  eexists _, _. split; [vm_compute; reflexivity|].
  split; [reflexivity|].
  edestruct (get_visible_metric_names_sorted_set Script.serve 2
               (Script.start [Responded names_page]))
    as (metrics & _ & Hsorted & _);
    [vm_compute; reflexivity|exact Hsorted].
Defined.

Lemma sync_runway_data_raises_with_entries_witness :
  (sync_runway_data (serve EntriesPage2Down) urlparse float_of_string
     base_url 5 false "L" "Runway" "f" start).1
  = Raise (HTTPError 500).
Proof.
  erewrite (sync_runway_data_raises_with_entries (serve EntriesPage2Down)
              urlparse float_of_string base_url 5 false "L" "Runway" "f");
    [reflexivity|vm_compute; reflexivity|vm_compute; discriminate
    |vm_compute; reflexivity].
Defined.

(** The join of the scenario: the first and the second record both match
    on "a", the third is unmatched, and "b" stays unmatched on the source
    side. *)
Lemma match_companies_one_match_per_record_witness :
  exists st,
    match_companies urlparse records (start_matching source_map) = (Ok tt, st)
    /\ classified urlparse source_map records
         (matches st) (unmatched_affinity st)
    /\ domain <$> matches st = ["a"; "a"]
    /\ unmatched_visible st = {["b"]}.
Proof.
  eexists. split; [vm_compute; reflexivity|].
  split; [|split; [reflexivity|vm_compute; reflexivity]].
  eapply (proj1 (proj1 (proj2 (match_companies_one_match_per_record urlparse))
                   source_map records _ _)).
  Unshelve. vm_compute. reflexivity.
Defined.

End MoreRuns.
